(** * Order-intake workflow of the print-service bot: sessions, validators,
      payload assembly and the step handlers

    The development embeds [session_manager.py] ([OrderStep], [OrderSession],
    [SessionManager]) and the handlers of [order_handlers.py] /
    [order_handlers_backup.py] ([OrderHandlers]) and states the properties of
    the order session state machine over that embedding.  The last sections
    of Part I embed the rest of [SessionManager] and the way [main.py] sends
    updates to the handlers; Part III states further properties of this
    code.

    Python values are modelled as follows.
    - [str] is a list of Unicode code points ([pystr]); [len] is [length].
    - [dict] with string keys is a [gmap pystr _]; [d[k] = v] is insertion,
      [d.pop(k, None)] is deletion, [k in d] is a successful lookup.
    - [Optional[T]] is [option T]; truthiness ([if x], [not x]) is written out
      for each type.
    - The session store [SessionManager.sessions] is a [gmap Z OrderSession];
      a handler takes the store and returns the new store together with the
      calls it made to its collaborators (chat transport, error handler,
      API client), in order. *)

From Stdlib Require Import ZArith NArith Ascii String Bool Lia.
From stdpp Require Import gmap list.

Set Warnings "-register-all".

(* ===================================================================== *)
(** * Part I: definitions                                                  *)
(* ===================================================================== *)

(** ** Strings *)

Module PyStr.

Abbreviation pystr := (list N).

(** Code points of a UTF-8 encoded byte sequence; used only to write string
    constants of the source as literals. *)
Fixpoint utf8_decode (bs : list N) : pystr :=
  match bs with
  | [] => []
  | b :: t =>
      if (b <? 128)%N then b :: utf8_decode t
      else if (b <? 224)%N then
        match t with
        | b1 :: t' => ((b - 192) * 64 + (b1 - 128))%N :: utf8_decode t'
        | _ => []
        end
      else if (b <? 240)%N then
        match t with
        | b1 :: b2 :: t' =>
            ((b - 224) * 4096 + (b1 - 128) * 64 + (b2 - 128))%N :: utf8_decode t'
        | _ => []
        end
      else
        match t with
        | b1 :: b2 :: b3 :: t' =>
            ((b - 240) * 262144 + (b1 - 128) * 4096 + (b2 - 128) * 64 + (b3 - 128))%N
              :: utf8_decode t'
        | _ => []
        end
  end.

Definition u (s : String.string) : pystr :=
  utf8_decode (map N_of_ascii (String.list_ascii_of_string s)).
Arguments u s%_string.

Definition in_range (lo hi c : N) : bool := (lo <=? c)%N && (c <=? hi)%N.

(** [str.isspace] on one character, which is also the class [\s] of [re] for
    [str] patterns and the set removed by [str.strip()]. *)
Definition is_space (c : N) : bool :=
  in_range 9 13 c || in_range 28 32 c || (c =? 133)%N || (c =? 160)%N
  || (c =? 5760)%N || in_range 8192 8202 c || (c =? 8232)%N || (c =? 8233)%N
  || (c =? 8239)%N || (c =? 8287)%N || (c =? 12288)%N.

(** The decimal digits (general category Nd, Unicode 14.0): the class [\d] of
    [re] for [str] patterns.  Every block but one is a run of ten. *)
Definition decimal_ranges : list (N * N) :=
  [ (48, 57); (1632, 1641); (1776, 1785); (1984, 1993); (2406, 2415);
    (2534, 2543); (2662, 2671); (2790, 2799); (2918, 2927); (3046, 3055);
    (3174, 3183); (3302, 3311); (3430, 3439); (3558, 3567); (3664, 3673);
    (3792, 3801); (3872, 3881); (4160, 4169); (4240, 4249); (6112, 6121);
    (6160, 6169); (6470, 6479); (6608, 6617); (6784, 6793); (6800, 6809);
    (6992, 7001); (7088, 7097); (7232, 7241); (7248, 7257); (42528, 42537);
    (43216, 43225); (43264, 43273); (43472, 43481); (43504, 43513);
    (43600, 43609); (44016, 44025); (65296, 65305); (66720, 66729);
    (68912, 68921); (69734, 69743); (69872, 69881); (69942, 69951);
    (70096, 70105); (70384, 70393); (70736, 70745); (70864, 70873);
    (71248, 71257); (71360, 71369); (71472, 71481); (71904, 71913);
    (72016, 72025); (72784, 72793); (73040, 73049); (73120, 73129);
    (92768, 92777); (92864, 92873); (93008, 93017); (120782, 120831);
    (123200, 123209); (123632, 123641); (125264, 125273);
    (130032, 130041) ]%N.

Definition is_decimal (c : N) : bool :=
  existsb (fun r => in_range (fst r) (snd r) c) decimal_ranges.

(** [if s] for a string. *)
Definition str_truthy (s : pystr) : bool :=
  match s with [] => false | _ => true end.

(** [if o] for an [Optional[str]]: neither [None] nor empty. *)
Definition opt_truthy (o : option pystr) : bool :=
  match o with Some s => str_truthy s | None => false end.

Fixpoint lstrip (s : pystr) : pystr :=
  match s with
  | [] => []
  | c :: t => if is_space c then lstrip t else s
  end.

Definition rstrip (s : pystr) : pystr := rev (lstrip (rev s)).

(** [s.strip()] *)
Definition strip (s : pystr) : pystr := rstrip (lstrip s).

Definition is_ascii (c : N) : bool := (c <? 128)%N.

Definition lower_ascii (c : N) : N :=
  if in_range 65 90 c then (c + 32)%N else c.

(** The lower-casing of text that holds a character outside ASCII is decided
    by the Unicode tables of the interpreter (with context rules such as the
    final sigma); it is a parameter of the model. *)
Class UnicodeCase := lower_unicode : pystr -> pystr.

(** [s.lower()] *)
Definition lower `{UnicodeCase} (s : pystr) : pystr :=
  if forallb is_ascii s then map lower_ascii s else lower_unicode s.

(** A table that leaves such text alone, to run examples. *)
Definition caseless : UnicodeCase := fun s => s.

Fixpoint starts_with (p s : pystr) : bool :=
  match p, s with
  | [], _ => true
  | a :: p', b :: s' => (a =? b)%N && starts_with p' s'
  | _ :: _, [] => false
  end.

(** [s.endswith(suffix)] *)
Definition endswith (s suffix : pystr) : bool :=
  starts_with (rev suffix) (rev s).

(** [s.endswith(tuple_of_suffixes)] *)
Definition endswith_any (s : pystr) (suffixes : list pystr) : bool :=
  existsb (endswith s) suffixes.

(** [s.split(sep)] for a one-character separator. *)
Fixpoint split_on (sep : N) (s : pystr) : list pystr :=
  match s with
  | [] => [[]]
  | c :: t =>
      if (c =? sep)%N then [] :: split_on sep t
      else match split_on sep t with
           | w :: ws => (c :: w) :: ws
           | [] => [[c]]
           end
  end.

End PyStr.
Export PyStr.

(** ** Regular expressions ([re]) *)

Module Regex.

Inductive regex :=
  | Empty
  | Eps
  | Sym (cls : N -> bool)
  | Cat (r1 r2 : regex)
  | Alt (r1 r2 : regex)
  | Star (r : regex).

Fixpoint nullable (r : regex) : bool :=
  match r with
  | Empty => false
  | Eps => true
  | Sym _ => false
  | Cat r1 r2 => nullable r1 && nullable r2
  | Alt r1 r2 => nullable r1 || nullable r2
  | Star _ => true
  end.

Fixpoint deriv (c : N) (r : regex) : regex :=
  match r with
  | Empty => Empty
  | Eps => Empty
  | Sym cls => if cls c then Eps else Empty
  | Cat r1 r2 =>
      if nullable r1 then Alt (Cat (deriv c r1) r2) (deriv c r2)
      else Cat (deriv c r1) r2
  | Alt r1 r2 => Alt (deriv c r1) (deriv c r2)
  | Star r1 => Cat (deriv c r1) (Star r1)
  end.

(** Does the whole of [s] belong to the language of [r]? *)
Fixpoint matchb (r : regex) (s : pystr) : bool :=
  match s with
  | [] => nullable r
  | c :: t => matchb (deriv c r) t
  end.

(** [r?], [r+], [r{n}], [r{0,n}], [r{m,n}], [r{m,}] *)
Definition re_opt (r : regex) : regex := Alt Eps r.
Definition re_plus (r : regex) : regex := Cat r (Star r).

Fixpoint re_times (n : nat) (r : regex) : regex :=
  match n with
  | O => Eps
  | S k => Cat r (re_times k r)
  end.

Fixpoint re_upto (n : nat) (r : regex) : regex :=
  match n with
  | O => Eps
  | S k => re_opt (Cat r (re_upto k r))
  end.

Definition re_repeat (m n : nat) (r : regex) : regex :=
  Cat (re_times m r) (re_upto (n - m) r).
Definition re_atleast (m : nat) (r : regex) : regex :=
  Cat (re_times m r) (Star r).

Definition chr (c : N) : regex := Sym (N.eqb c).

(** [$] without [re.MULTILINE]: the end of the text, or just before a
    newline that ends the text. *)
Definition re_dollar : regex := Alt Eps (chr 10).

(** [bool(re.match(r"^R$", s))].  The patterns of this program have no
    groups that are read back, so only membership matters. *)
Definition re_match (r : regex) (s : pystr) : bool :=
  matchb (Cat r re_dollar) s.

(** [re.sub(r"[C]", "", s)] for a one-character class [C]: every character
    of the class is removed. *)
Definition re_sub_delete (cls : N -> bool) (s : pystr) : pystr :=
  filter (fun c => cls c = false) s.

(** The language of a pattern. *)
Inductive matches : regex -> pystr -> Prop :=
  | MEps : matches Eps []
  | MSym cls c : cls c = true -> matches (Sym cls) [c]
  | MCat r1 r2 s1 s2 :
      matches r1 s1 -> matches r2 s2 -> matches (Cat r1 r2) (s1 ++ s2)
  | MAltL r1 r2 s : matches r1 s -> matches (Alt r1 r2) s
  | MAltR r1 r2 s : matches r2 s -> matches (Alt r1 r2) s
  | MStarNil r : matches (Star r) []
  | MStarApp r s1 s2 :
      matches r s1 -> matches (Star r) s2 -> matches (Star r) (s1 ++ s2).

End Regex.
Export Regex.

(** ** Validators ([OrderHandlers._validate_*]) *)

(** [[a-zA-Zа-яА-ЯёЁ\s\-']] *)
Definition name_class (c : N) : bool :=
  in_range 97 122 c || in_range 65 90 c
  || in_range 1072 1103 c || in_range 1040 1071 c
  || (c =? 1105)%N || (c =? 1025)%N
  || is_space c || (c =? 45)%N || (c =? 39)%N.

Definition name_pattern : regex := re_plus (Sym name_class).

Definition _validate_name (name : pystr) : bool :=
  if negb (str_truthy name) || (length (strip name) <? 2) then false
  else if 50 <? length (strip name) then false
  else re_match name_pattern (strip name).

(** [[a-zA-Z0-9._%+-]], [[a-zA-Z0-9.-]], [[a-zA-Z]] *)
Definition email_local_class (c : N) : bool :=
  in_range 97 122 c || in_range 65 90 c || in_range 48 57 c
  || (c =? 46)%N || (c =? 95)%N || (c =? 37)%N || (c =? 43)%N || (c =? 45)%N.
Definition email_domain_class (c : N) : bool :=
  in_range 97 122 c || in_range 65 90 c || in_range 48 57 c
  || (c =? 46)%N || (c =? 45)%N.
Definition latin_class (c : N) : bool :=
  in_range 97 122 c || in_range 65 90 c.

Definition email_pattern : regex :=
  Cat (re_plus (Sym email_local_class))
    (Cat (chr 64)
       (Cat (re_plus (Sym email_domain_class))
          (Cat (chr 46) (re_atleast 2 (Sym latin_class))))).

Definition _validate_email (email : pystr) : bool :=
  if negb (str_truthy email) then false
  else re_match email_pattern (strip email).

(** [[^\d+]]: the characters that [re.sub] deletes, and [^\+?[1-9]\d{6,14}$] *)
Definition phone_junk_class (c : N) : bool :=
  negb (is_decimal c || (c =? 43)%N).

Definition phone_pattern : regex :=
  Cat (re_opt (chr 43))
    (Cat (Sym (in_range 49 57)) (re_repeat 6 14 (Sym is_decimal))).

Definition phone_cleaned (phone : pystr) : pystr :=
  re_sub_delete phone_junk_class phone.

Definition _validate_phone (phone : pystr) : bool :=
  if negb (str_truthy phone) then true
  else re_match phone_pattern (phone_cleaned phone).

(** ** Python values *)

(** The values that travel through the session and the payload ([Any]). *)
Inductive pyval :=
  | VNone
  | VBool (b : bool)
  | VInt (z : Z)
  | VStr (s : pystr)
  | VList (l : list pyval)
  | VDict (d : gmap pystr pyval).

Definition dict_truthy {A} (d : gmap pystr A) : bool := negb (size d =? 0).

(** [if v] *)
Definition py_truthy (v : pyval) : bool :=
  match v with
  | VNone => false
  | VBool b => b
  | VInt z => negb (z =? 0)%Z
  | VStr s => str_truthy s
  | VList l => match l with [] => false | _ => true end
  | VDict d => dict_truthy d
  end.

(** [v == n] for an [int] [n] *)
Definition py_eq_int (v : pyval) (n : Z) : bool :=
  match v with
  | VInt z => (z =? n)%Z
  | VBool b => ((if b then 1 else 0) =? n)%Z
  | _ => false
  end.

Definition of_opt_str (o : option pystr) : pyval :=
  match o with Some s => VStr s | None => VNone end.
Definition of_opt_int (o : option Z) : pyval :=
  match o with Some z => VInt z | None => VNone end.

(** [d.get(k)] and [d.get(k, default)] *)
Definition dict_get (d : gmap pystr pyval) (k : pystr) : pyval :=
  default VNone (d !! k).
Definition dict_get_or (d : gmap pystr pyval) (k : pystr) (dflt : pyval) : pyval :=
  default dflt (d !! k).

(** ** [session_manager.py] *)

Inductive OrderStep :=
  | START
  | SERVICE_SELECTION
  | CONTACT_INFO
  | FILE_UPLOAD
  | SPECIFICATIONS
  | DELIVERY
  | CONFIRMATION
  | COMPLETED.

#[global] Instance OrderStep_eq_dec : EqDecision OrderStep.
Proof. solve_decision. Defined.

Record OrderSession := mkOrderSession {
  user_id : Z;
  step : OrderStep;
  service_id : option Z;
  service_name : pyval;
  customer_name : option pystr;
  customer_email : option pystr;
  customer_phone : option pystr;
  files : list pyval;
  specifications : gmap pystr pyval;
  delivery_needed : option bool;
  delivery_details : option pystr;
  created_at : Z
}.

(** [OrderSession(user_id=user_id)], created at time [now] *)
Definition new_session (uid : Z) (now : Z) : OrderSession :=
  {| user_id := uid; step := START; service_id := None; service_name := VNone;
     customer_name := None; customer_email := None; customer_phone := None;
     files := []; specifications := ∅; delivery_needed := None;
     delivery_details := None; created_at := now |}.

(** Attribute assignment [session.f = v], one function per attribute that
    the handlers write. *)

Definition set_step (v : OrderStep) (s : OrderSession) : OrderSession :=
  {| user_id := user_id s; step := v; service_id := service_id s;
     service_name := service_name s; customer_name := customer_name s;
     customer_email := customer_email s; customer_phone := customer_phone s;
     files := files s; specifications := specifications s;
     delivery_needed := delivery_needed s; delivery_details := delivery_details s;
     created_at := created_at s |}.

Definition set_service_id (v : option Z) (s : OrderSession) : OrderSession :=
  {| user_id := user_id s; step := step s; service_id := v;
     service_name := service_name s; customer_name := customer_name s;
     customer_email := customer_email s; customer_phone := customer_phone s;
     files := files s; specifications := specifications s;
     delivery_needed := delivery_needed s; delivery_details := delivery_details s;
     created_at := created_at s |}.

Definition set_service_name (v : pyval) (s : OrderSession) : OrderSession :=
  {| user_id := user_id s; step := step s; service_id := service_id s;
     service_name := v; customer_name := customer_name s;
     customer_email := customer_email s; customer_phone := customer_phone s;
     files := files s; specifications := specifications s;
     delivery_needed := delivery_needed s; delivery_details := delivery_details s;
     created_at := created_at s |}.

Definition set_customer_name (v : option pystr) (s : OrderSession) : OrderSession :=
  {| user_id := user_id s; step := step s; service_id := service_id s;
     service_name := service_name s; customer_name := v;
     customer_email := customer_email s; customer_phone := customer_phone s;
     files := files s; specifications := specifications s;
     delivery_needed := delivery_needed s; delivery_details := delivery_details s;
     created_at := created_at s |}.

Definition set_customer_email (v : option pystr) (s : OrderSession) : OrderSession :=
  {| user_id := user_id s; step := step s; service_id := service_id s;
     service_name := service_name s; customer_name := customer_name s;
     customer_email := v; customer_phone := customer_phone s;
     files := files s; specifications := specifications s;
     delivery_needed := delivery_needed s; delivery_details := delivery_details s;
     created_at := created_at s |}.

Definition set_customer_phone (v : option pystr) (s : OrderSession) : OrderSession :=
  {| user_id := user_id s; step := step s; service_id := service_id s;
     service_name := service_name s; customer_name := customer_name s;
     customer_email := customer_email s; customer_phone := v;
     files := files s; specifications := specifications s;
     delivery_needed := delivery_needed s; delivery_details := delivery_details s;
     created_at := created_at s |}.

Definition set_files (v : list pyval) (s : OrderSession) : OrderSession :=
  {| user_id := user_id s; step := step s; service_id := service_id s;
     service_name := service_name s; customer_name := customer_name s;
     customer_email := customer_email s; customer_phone := customer_phone s;
     files := v; specifications := specifications s;
     delivery_needed := delivery_needed s; delivery_details := delivery_details s;
     created_at := created_at s |}.

Definition set_specifications (v : gmap pystr pyval) (s : OrderSession) : OrderSession :=
  {| user_id := user_id s; step := step s; service_id := service_id s;
     service_name := service_name s; customer_name := customer_name s;
     customer_email := customer_email s; customer_phone := customer_phone s;
     files := files s; specifications := v;
     delivery_needed := delivery_needed s; delivery_details := delivery_details s;
     created_at := created_at s |}.

Definition set_delivery_needed (v : option bool) (s : OrderSession) : OrderSession :=
  {| user_id := user_id s; step := step s; service_id := service_id s;
     service_name := service_name s; customer_name := customer_name s;
     customer_email := customer_email s; customer_phone := customer_phone s;
     files := files s; specifications := specifications s;
     delivery_needed := v; delivery_details := delivery_details s;
     created_at := created_at s |}.

Definition set_delivery_details (v : option pystr) (s : OrderSession) : OrderSession :=
  {| user_id := user_id s; step := step s; service_id := service_id s;
     service_name := service_name s; customer_name := customer_name s;
     customer_email := customer_email s; customer_phone := customer_phone s;
     files := files s; specifications := specifications s;
     delivery_needed := delivery_needed s; delivery_details := v;
     created_at := created_at s |}.

(** [OrderSession.to_order_data] *)
Definition to_order_data (self : OrderSession) : gmap pystr pyval :=
  let specifications0 : gmap pystr pyval :=
    <[u "bot_user_id" := VInt (user_id self)]>
      (<[u "order_source" := VStr (u "telegram_bot")]>
         (<[u "files_info" := VList (files self)]> (specifications self))) in
  let specifications1 :=
    if opt_truthy (customer_phone self)
    then <[u "customer_phone" := of_opt_str (customer_phone self)]> specifications0
    else specifications0 in
  let order_data0 : gmap pystr pyval :=
    <[u "specifications" := VDict specifications1]>
      (<[u "source" := VStr (u "TELEGRAM")]>
         (<[u "service_id" := of_opt_int (service_id self)]>
            (<[u "customer_phone" := of_opt_str (customer_phone self)]>
               (<[u "customer_email" := of_opt_str (customer_email self)]>
                  (<[u "customer_name" := of_opt_str (customer_name self)]> ∅))))) in
  let order_data1 :=
    match delivery_needed self with
    | Some needed =>
        let d := <[u "delivery_needed" :=
                     VStr (if needed then u "true" else u "false")]> order_data0 in
        if opt_truthy (delivery_details self)
        then <[u "delivery_details" := of_opt_str (delivery_details self)]> d
        else d
    | None => order_data0
    end in
  <[u "customer_contact" := of_opt_str (customer_email self)]> order_data1.

(** [OrderSession.is_complete] *)
Definition is_complete (self : OrderSession) : bool :=
  forallb (fun field => field)
    [ bool_decide (customer_name self ≠ None);
      bool_decide (customer_email self ≠ None);
      bool_decide (service_id self ≠ None) ]
  && (0 <? length (files self)).

(** [SessionManager]: the store is the dictionary [self.sessions]. *)
Abbreviation SessionManager := (gmap Z OrderSession).

Definition get_session (sessions : SessionManager) (uid : Z) : option OrderSession :=
  sessions !! uid.

Definition create_session (sessions : SessionManager) (uid now : Z)
  : SessionManager * OrderSession :=
  let session := new_session uid now in
  (<[uid := session]> sessions, session).

Definition clear_session (sessions : SessionManager) (uid : Z)
  : SessionManager * bool :=
  match sessions !! uid with
  | Some _ => (delete uid sessions, true)
  | None => (sessions, false)
  end.

(** ** Collaborators *)

(** The result of an awaited call to the API client or the chat platform. *)
Inductive outcome (A : Type) :=
  | Returns (a : A)
  | RaisesAPIClientError (status_code : option Z)
  | RaisesException.
Arguments Returns {A} a.
Arguments RaisesAPIClientError {A} status_code.
Arguments RaisesException {A}.

(** [update.message.document] *)
Record Document := mkDocument {
  file_name : option pystr;
  file_size : option Z;
  file_id : pystr;
  mime_type : option pystr
}.

(** The texts sent to the user, by purpose (their wording is not modelled). *)
Inductive reply :=
  | NoServicesAvailable
  | ServiceSelectionPrompt
  | ServiceNotFound
  | ContactInfoPrompt
  | EmailPrompt
  | PhonePrompt
  | FileUploadPrompt
  | FileMissing
  | FileUploaded
  | FilesRequired
  | MaterialPrompt
  | QualityPrompt
  | InfillPrompt
  | DeliveryPrompt
  | AddressPrompt
  | AddressTooShort
  | ConfirmationPrompt
  | EditMenuPrompt
  | OrderIncomplete
  | ProcessingOrder
  | OrderCreated
  | OrderCreationFailed
  | OrderCancelled
  | NoFilesToRemove
  | FileRemoved.

(** The calls a handler makes to its collaborators. *)
Inductive event :=
  | Reply (r : reply)
  | HandleSessionError (error_type : pystr)
  | HandleValidationError (field_name : pystr) (error_message : option pystr)
  | HandleFileError (error_type : pystr) (filename : option pystr)
  | HandleApiError (user_context : pystr)
  | GetServices
  | DownloadFile (id : pystr)
  | UploadFile (filename : pystr) (content_type : option pystr)
  | CreateOrder (order_data : gmap pystr pyval)
  | NotifyNewOrder (order_info : pyval) (uid : Z).

(** [BotErrorHandler.handle_validation_error]: the text sent to the user. *)
Definition default_messages (field_name : pystr) : pystr :=
  if bool_decide (field_name = u "email")
  then u "Некорректный email адрес. Пример: user@example.com"
  else if bool_decide (field_name = u "phone")
  then u "Некорректный номер телефона. Пример: +7 900 123-45-67"
  else if bool_decide (field_name = u "name")
  then u "Имя должно содержать только буквы и быть длиной от 2 до 50 символов"
  else if bool_decide (field_name = u "service")
  then u "Выберите услугу из предложенного списка"
  else if bool_decide (field_name = u "specifications")
  then u "Некорректные параметры заказа"
  else u "Некорректное значение для поля '" ++ field_name ++ u "'".

Definition validation_error_text (field_name : pystr) (error_message : option pystr)
  : pystr :=
  let message :=
    if opt_truthy error_message then default [] error_message
    else default_messages field_name in
  u "❌ " ++ message.

(** ** [OrderHandlers] *)

Definition required_specs : list pystr := [u "material"; u "quality"; u "infill"].

(** [OrderHandlers._validate_order_data] *)
Definition _validate_order_data (session : OrderSession) : option pystr :=
  if negb (opt_truthy (customer_name session))
     || (length (strip (default [] (customer_name session))) <? 2)
  then Some (u "Имя клиента должно содержать минимум 2 символа")
  else if negb (opt_truthy (customer_email session))
          || negb (_validate_email (default [] (customer_email session)))
  then Some (u "Некорректный email адрес")
  else if negb (py_truthy (of_opt_int (service_id session)))
  then Some (u "Не выбрана услуга")
  else if negb (py_truthy (VList (files session)))
  then Some (u "Необходимо загрузить хотя бы один файл")
  else if opt_truthy (customer_phone session)
          && negb (_validate_phone (default [] (customer_phone session)))
  then Some (u "Некорректный номер телефона")
  else if negb (dict_truthy (specifications session))
  then Some (u "Не указаны параметры печати")
  else
    match List.find (fun spec => bool_decide (specifications session !! spec = None))
            required_specs with
    | Some spec => Some (u "Не указан параметр: " ++ spec)
    | None =>
        match delivery_needed session with
        | None => Some (u "Не выбран способ получения заказа")
        | Some needed =>
            if needed && negb (opt_truthy (delivery_details session))
            then Some (u "Не указан адрес доставки")
            else None
        end
    end.

(** A handler returns the store it leaves and the calls it made. *)
Abbreviation result := (SessionManager * list event)%type.

Definition show_service_selection (services : outcome (list (gmap pystr pyval)))
  : list event :=
  GetServices ::
  match services with
  | Returns [] => [Reply NoServicesAvailable]
  | Returns _ => [Reply ServiceSelectionPrompt]
  | RaisesAPIClientError _ => [HandleApiError (u "fetching services for order")]
  | RaisesException => [HandleApiError (u "showing service selection")]
  end.

Definition show_prompt (sessions : SessionManager) (uid : Z) (r : reply)
  : list event :=
  match sessions !! uid with
  | None => [HandleSessionError (u "session_not_found")]
  | Some _ => [Reply r]
  end.

Definition show_contact_info_collection sessions uid :=
  show_prompt sessions uid ContactInfoPrompt.
Definition show_file_upload_step sessions uid :=
  show_prompt sessions uid FileUploadPrompt.
Definition show_specifications_step sessions uid :=
  show_prompt sessions uid MaterialPrompt.
Definition show_delivery_step sessions uid :=
  show_prompt sessions uid DeliveryPrompt.
Definition show_confirmation_step sessions uid :=
  show_prompt sessions uid ConfirmationPrompt.

Definition start_order_process (sessions : SessionManager) (uid now : Z)
    (services : outcome (list (gmap pystr pyval))) : result :=
  let (sessions1, session) := create_session sessions uid now in
  (<[uid := set_step SERVICE_SELECTION session]> sessions1,
   show_service_selection services).

Definition handle_service_selection (sessions : SessionManager) (uid : Z)
    (service_id : Z) (services : outcome (list (gmap pystr pyval))) : result :=
  match sessions !! uid with
  | None => (sessions, [HandleSessionError (u "session_not_found")])
  | Some session =>
      match services with
      | Returns l =>
          match List.find (fun s => py_eq_int (dict_get s (u "id")) service_id) l with
          | Some selected_service =>
              let session1 :=
                set_step CONTACT_INFO
                  (set_service_name
                     (dict_get_or selected_service (u "name") (VStr (u "Услуга")))
                     (set_service_id (Some service_id) session)) in
              let sessions1 := <[uid := session1]> sessions in
              (sessions1, GetServices :: show_contact_info_collection sessions1 uid)
          | None => (sessions, [GetServices; Reply ServiceNotFound])
          end
      | RaisesAPIClientError _ =>
          (sessions, [GetServices; HandleApiError (u "selecting service")])
      | RaisesException =>
          (sessions, [GetServices; HandleApiError (u "handling service selection")])
      end
  end.

(** The guard [if not session or session.step != expected] shared by the
    step handlers; [body] runs on the session that passed it. *)
Definition at_step (expected : OrderStep) (sessions : SessionManager) (uid : Z)
    (body : OrderSession -> result) : result :=
  match sessions !! uid with
  | None => (sessions, [HandleSessionError (u "invalid_step")])
  | Some session =>
      if bool_decide (step session = expected) then body session
      else (sessions, [HandleSessionError (u "invalid_step")])
  end.

Definition handle_contact_name (sessions : SessionManager) (uid : Z) (name : pystr)
  : result :=
  at_step CONTACT_INFO sessions uid (fun session =>
    if negb (_validate_name name)
    then (sessions, [HandleValidationError (u "name") None])
    else (<[uid := set_customer_name (Some (strip name)) session]> sessions,
          [Reply EmailPrompt])).

Definition handle_contact_email `{UnicodeCase} (sessions : SessionManager) (uid : Z)
    (email : pystr) : result :=
  at_step CONTACT_INFO sessions uid (fun session =>
    if negb (_validate_email email)
    then (sessions, [HandleValidationError (u "email") None])
    else (<[uid := set_customer_email (Some (lower (strip email))) session]> sessions,
          [Reply PhonePrompt])).

Definition handle_contact_phone (sessions : SessionManager) (uid : Z) (phone : pystr)
  : result :=
  at_step CONTACT_INFO sessions uid (fun session =>
    if str_truthy phone && negb (_validate_phone phone)
    then (sessions, [HandleValidationError (u "phone") None])
    else
      let session1 :=
        set_step FILE_UPLOAD
          (set_customer_phone (if str_truthy phone then Some (strip phone) else None)
             session) in
      let sessions1 := <[uid := session1]> sessions in
      (sessions1, show_file_upload_step sessions1 uid)).

Definition skip_phone_step (sessions : SessionManager) (uid : Z) : result :=
  at_step CONTACT_INFO sessions uid (fun session =>
    let sessions1 :=
      <[uid := set_step FILE_UPLOAD (set_customer_phone None session)]> sessions in
    (sessions1, show_file_upload_step sessions1 uid)).

Definition supported_formats : list pystr := [u ".stl"; u ".obj"; u ".3mf"].
Definition max_upload_size : Z := 50 * 1024 * 1024.

(** [handle_file_upload]; [download] is the outcome of fetching the bytes
    from the chat platform and [upload] that of [api_client.upload_file]. *)
Definition handle_file_upload `{UnicodeCase} (sessions : SessionManager) (uid : Z)
    (document : option Document) (download : outcome unit) (upload : outcome pyval)
  : result :=
  at_step FILE_UPLOAD sessions uid (fun session =>
    match document with
    | None => (sessions, [Reply FileMissing])
    | Some file =>
        if negb (opt_truthy (file_name file))
        then (sessions, [HandleFileError (u "file_not_found") None])
        else
          let name := default [] (file_name file) in
          let filename_lower := lower name in
          if negb (endswith_any filename_lower supported_formats)
          then (sessions, [HandleFileError (u "invalid_format") (Some name)])
          else if py_truthy (of_opt_int (file_size file))
                  && (max_upload_size <? default 0 (file_size file))%Z
          then (sessions, [HandleFileError (u "file_too_large") (Some name)])
          else
            match download with
            | Returns _ =>
                match upload with
                | Returns upload_result =>
                    let file_info :=
                      VDict (<[u "upload_result" := upload_result]>
                               (<[u "telegram_file_id" := VStr (file_id file)]>
                                  (<[u "size" := of_opt_int (file_size file)]>
                                     (<[u "filename" := VStr name]> ∅)))) in
                    let sessions1 :=
                      <[uid := set_files (files session ++ [file_info]) session]>
                        sessions in
                    (sessions1,
                     [DownloadFile (file_id file); UploadFile name (mime_type file);
                      (* the confirmation divides the size: it fails without one *)
                      match file_size file with
                      | Some _ => Reply FileUploaded
                      | None => HandleFileError (u "upload_failed") (Some name)
                      end])
                | RaisesAPIClientError _ =>
                    (sessions,
                     [DownloadFile (file_id file); UploadFile name (mime_type file);
                      HandleApiError (u "uploading file")])
                | RaisesException =>
                    (sessions,
                     [DownloadFile (file_id file); UploadFile name (mime_type file);
                      HandleFileError (u "upload_failed") (Some name)])
                end
            | RaisesAPIClientError _ =>
                (sessions,
                 [DownloadFile (file_id file); HandleApiError (u "uploading file")])
            | RaisesException =>
                (sessions,
                 [DownloadFile (file_id file);
                  HandleFileError (u "upload_failed") (Some name)])
            end
    end).

Definition continue_with_files (sessions : SessionManager) (uid : Z) : result :=
  match sessions !! uid with
  | None => (sessions, [Reply FilesRequired])
  | Some session =>
      if negb (py_truthy (VList (files session)))
      then (sessions, [Reply FilesRequired])
      else
        let sessions1 := <[uid := set_step SPECIFICATIONS session]> sessions in
        (sessions1, show_specifications_step sessions1 uid)
  end.

(** [session.specifications[key] = value] *)
Definition set_spec (key : pystr) (value : pyval) (s : OrderSession) : OrderSession :=
  set_specifications (<[key := value]> (specifications s)) s.

(** [session.specifications.pop(key, None)] *)
Definition pop_spec (key : pystr) (s : OrderSession) : OrderSession :=
  set_specifications (delete key (specifications s)) s.

Definition handle_material_selection (sessions : SessionManager) (uid : Z)
    (material : pyval) : result :=
  at_step SPECIFICATIONS sessions uid (fun session =>
    (<[uid := set_spec (u "material") material session]> sessions,
     [Reply QualityPrompt])).

Definition handle_quality_selection (sessions : SessionManager) (uid : Z)
    (quality : pyval) : result :=
  at_step SPECIFICATIONS sessions uid (fun session =>
    (<[uid := set_spec (u "quality") quality session]> sessions,
     [Reply InfillPrompt])).

Definition handle_infill_selection (sessions : SessionManager) (uid : Z)
    (infill : pyval) : result :=
  at_step SPECIFICATIONS sessions uid (fun session =>
    let sessions1 :=
      <[uid := set_step DELIVERY (set_spec (u "infill") infill session)]> sessions in
    (sessions1, show_delivery_step sessions1 uid)).

Definition handle_delivery_pickup (sessions : SessionManager) (uid : Z) : result :=
  at_step DELIVERY sessions uid (fun session =>
    let sessions1 :=
      <[uid := set_step CONFIRMATION
                 (set_delivery_details None
                    (set_delivery_needed (Some false) session))]> sessions in
    (sessions1, show_confirmation_step sessions1 uid)).

Definition handle_delivery_shipping (sessions : SessionManager) (uid : Z) : result :=
  at_step DELIVERY sessions uid (fun session =>
    (<[uid := set_delivery_needed (Some true) session]> sessions,
     [Reply AddressPrompt])).

Definition handle_delivery_address (sessions : SessionManager) (uid : Z)
    (address : pystr) : result :=
  at_step DELIVERY sessions uid (fun session =>
    if length (strip address) <? 10
    then (sessions, [Reply AddressTooShort])
    else
      let sessions1 :=
        <[uid := set_step CONFIRMATION
                   (set_delivery_details (Some (strip address)) session)]> sessions in
      (sessions1, show_confirmation_step sessions1 uid)).

Definition show_edit_menu (sessions : SessionManager) (uid : Z) : result :=
  (sessions, [Reply EditMenuPrompt]).

(** [confirm_order] ([order_handlers.py]); [create] is the outcome of
    [api_client.create_order] and [notification_service] tells whether the
    handlers were built with a notification service. *)
Definition confirm_order (notification_service : bool) (sessions : SessionManager)
    (uid : Z) (create : outcome pyval) : result :=
  at_step CONFIRMATION sessions uid (fun session =>
    let validation_error := _validate_order_data session in
    if opt_truthy validation_error
    then (sessions, [HandleValidationError (u "order_data") validation_error])
    else if negb (is_complete session)
    then (sessions, [Reply OrderIncomplete])
    else
      let order_data := to_order_data session in
      let failed : result :=
        (sessions, [Reply ProcessingOrder; CreateOrder order_data;
                    Reply OrderCreationFailed]) in
      match create with
      | Returns created_order =>
          let order_info :=
            match created_order with
            | VDict d =>
                if py_truthy (dict_get d (u "success"))
                then dict_get_or d (u "data") (VDict ∅)
                else created_order
            | _ => created_order
            end in
          match order_info with
          | VDict _ =>
              (* [session.step = COMPLETED], then the session is cleared *)
              let sessions1 := <[uid := set_step COMPLETED session]> sessions in
              ((clear_session sessions1 uid).1,
               [Reply ProcessingOrder; CreateOrder order_data; Reply OrderCreated]
               ++ (if notification_service then [NotifyNewOrder order_info uid]
                   else []))
          | _ => failed
          end
      | RaisesAPIClientError _ => failed
      | RaisesException => failed
      end).

Definition cancel_order (sessions : SessionManager) (uid : Z) : result :=
  ((clear_session sessions uid).1, [Reply OrderCancelled]).

(** The navigation handlers: [if session: session.step = target]. *)
Definition go_to (target : OrderStep) (sessions : SessionManager) (uid : Z)
  : SessionManager :=
  match sessions !! uid with
  | Some session => <[uid := set_step target session]> sessions
  | None => sessions
  end.

Definition back_to_services (sessions : SessionManager) (uid : Z)
    (services : outcome (list (gmap pystr pyval))) : result :=
  (go_to SERVICE_SELECTION sessions uid, show_service_selection services).

Definition back_to_contacts (sessions : SessionManager) (uid : Z) : result :=
  let sessions1 := go_to CONTACT_INFO sessions uid in
  (sessions1, show_contact_info_collection sessions1 uid).

Definition back_to_files (sessions : SessionManager) (uid : Z) : result :=
  let sessions1 := go_to FILE_UPLOAD sessions uid in
  (sessions1, show_file_upload_step sessions1 uid).

Definition back_to_specs (sessions : SessionManager) (uid : Z) : result :=
  let sessions1 := go_to SPECIFICATIONS sessions uid in
  (sessions1, show_specifications_step sessions1 uid).

Definition back_to_delivery (sessions : SessionManager) (uid : Z) : result :=
  let sessions1 := go_to DELIVERY sessions uid in
  (sessions1, show_delivery_step sessions1 uid).

Definition back_to_confirmation (sessions : SessionManager) (uid : Z) : result :=
  let sessions1 := go_to CONFIRMATION sessions uid in
  (sessions1, show_confirmation_step sessions1 uid).

(** [remove_last_file]: [session.files.pop()] *)
Definition remove_last_file (sessions : SessionManager) (uid : Z) : result :=
  match sessions !! uid with
  | None => (sessions, [Reply NoFilesToRemove])
  | Some session =>
      if negb (py_truthy (VList (files session)))
      then (sessions, [Reply NoFilesToRemove])
      else (<[uid := set_files (removelast (files session)) session]> sessions,
            [Reply FileRemoved])
  end.

Definition back_to_material (sessions : SessionManager) (uid : Z) : result :=
  let sessions1 :=
    match sessions !! uid with
    | Some session =>
        <[uid := pop_spec (u "infill") (pop_spec (u "quality") session)]> sessions
    | None => sessions
    end in
  (sessions1, show_specifications_step sessions1 uid).

Definition back_to_quality (sessions : SessionManager) (uid : Z) : result :=
  match sessions !! uid with
  | Some session =>
      if py_truthy (dict_get (specifications session) (u "material"))
      then
        let session1 := pop_spec (u "infill") session in
        handle_material_selection (<[uid := session1]> sessions) uid
          (dict_get (specifications session1) (u "material"))
      else (sessions, show_specifications_step sessions uid)
  | None => (sessions, show_specifications_step sessions uid)
  end.

(** ** The workflow as a transition system *)

(** One user action reaching [OrderHandlers], with what the collaborators
    answer while it is handled. *)
Inductive action :=
  | StartOrder (now : Z) (services : outcome (list (gmap pystr pyval)))
  | SelectService (service_id : Z) (services : outcome (list (gmap pystr pyval)))
  | ContactName (name : pystr)
  | ContactEmail (email : pystr)
  | ContactPhone (phone : pystr)
  | SkipPhone
  | FileUpload (document : option Document) (download : outcome unit)
      (upload : outcome pyval)
  | ContinueWithFiles
  | SelectMaterial (material : pystr)
  | SelectQuality (quality : pystr)
  | SelectInfill (infill : pystr)
  | DeliveryPickup
  | DeliveryShipping
  | DeliveryAddress (address : pystr)
  | EditMenu
  | Confirm (notification_service : bool) (create : outcome pyval)
  | Cancel
  | BackToServices (services : outcome (list (gmap pystr pyval)))
  | BackToContacts
  | BackToFiles
  | BackToSpecs
  | BackToDelivery
  | BackToConfirmation
  | RemoveLastFile
  | BackToMaterial
  | BackToQuality.

Definition handle `{UnicodeCase} (sessions : SessionManager) (uid : Z) (a : action)
  : result :=
  match a with
  | StartOrder now services => start_order_process sessions uid now services
  | SelectService service_id services =>
      handle_service_selection sessions uid service_id services
  | ContactName name => handle_contact_name sessions uid name
  | ContactEmail email => handle_contact_email sessions uid email
  | ContactPhone phone => handle_contact_phone sessions uid phone
  | SkipPhone => skip_phone_step sessions uid
  | FileUpload document download upload =>
      handle_file_upload sessions uid document download upload
  | ContinueWithFiles => continue_with_files sessions uid
  | SelectMaterial material => handle_material_selection sessions uid (VStr material)
  | SelectQuality quality => handle_quality_selection sessions uid (VStr quality)
  | SelectInfill infill => handle_infill_selection sessions uid (VStr infill)
  | DeliveryPickup => handle_delivery_pickup sessions uid
  | DeliveryShipping => handle_delivery_shipping sessions uid
  | DeliveryAddress address => handle_delivery_address sessions uid address
  | EditMenu => show_edit_menu sessions uid
  | Confirm notification_service create =>
      confirm_order notification_service sessions uid create
  | Cancel => cancel_order sessions uid
  | BackToServices services => back_to_services sessions uid services
  | BackToContacts => back_to_contacts sessions uid
  | BackToFiles => back_to_files sessions uid
  | BackToSpecs => back_to_specs sessions uid
  | BackToDelivery => back_to_delivery sessions uid
  | BackToConfirmation => back_to_confirmation sessions uid
  | RemoveLastFile => remove_last_file sessions uid
  | BackToMaterial => back_to_material sessions uid
  | BackToQuality => back_to_quality sessions uid
  end.

(** The stores that a sequence of user actions can produce, starting with no
    session at all. *)
Inductive reachable `{UnicodeCase} : SessionManager -> Prop :=
  | reachable_empty : reachable ∅
  | reachable_step sessions uid a :
      reachable sessions -> reachable (handle sessions uid a).1.

(** The store after a list of actions, each tagged with its user. *)
Fixpoint run `{UnicodeCase} (sessions : SessionManager) (trace : list (Z * action))
  : SessionManager :=
  match trace with
  | [] => sessions
  | (uid, a) :: rest => run (handle sessions uid a).1 rest
  end.

(** ** [config.py] *)

(** The file upload limits of [Settings].  [Settings] is a [BaseSettings]:
    a field takes its value from the environment or from [.env] when it is
    set there, and the default of the class otherwise. *)
Record Settings := mkSettings {
  max_file_size_mb : Z;
  allowed_file_extensions : pystr
}.

(** The defaults of the class. *)
Definition default_settings : Settings :=
  {| max_file_size_mb := 50; allowed_file_extensions := u ".stl,.obj,.3mf" |}.

(** [Settings.allowed_extensions_list] *)
Definition allowed_extensions_list (self : Settings) : list pystr :=
  map strip (filter (fun ext => str_truthy (strip ext) = true)
               (split_on 44 (allowed_file_extensions self))).

(** ** The properties of the specification, as predicates *)

(** The condition required of a session whose step is CONFIRMATION. *)
Definition confirmation_invariant (s : OrderSession) : Prop :=
  customer_name s ≠ None
  ∧ (∃ e, customer_email s = Some e ∧ _validate_email e = true)
  ∧ files s ≠ []
  ∧ (∀ k, k ∈ required_specs → is_Some (specifications s !! k))
  ∧ delivery_needed s ≠ None
  ∧ (delivery_needed s = Some false ∨ delivery_details s ≠ None).


(** Phone validation as the specification words it: keep the digits and a
    leading plus sign, then ask for 7 to 15 digits. *)
Definition spec_phone_residue (s : pystr) : pystr :=
  match filter (fun c => is_decimal c || (c =? 43)%N = true) s with
  | 43%N :: rest => 43%N :: filter (fun c => is_decimal c = true) rest
  | kept => filter (fun c => is_decimal c = true) kept
  end.

Definition spec_validate_phone (s : pystr) : bool :=
  match s with
  | [] => true
  | _ =>
      let digits := length (filter (fun c => is_decimal c = true) (spec_phone_residue s)) in
      (7 <=? digits) && (digits <=? 15)
  end.

(** Name validation as the specification words it: letters of the Latin and
    Cyrillic alphabets with their accented and extended forms, the space,
    the hyphen and the apostrophe. *)
Definition spec_letter (c : N) : bool :=
  in_range 97 122 c || in_range 65 90 c
  || in_range 192 214 c || in_range 216 246 c || in_range 248 591 c
  || in_range 1024 1279 c.

Definition spec_name_char (c : N) : bool :=
  spec_letter c || (c =? 32)%N || (c =? 45)%N || (c =? 39)%N.

Definition spec_validate_name (s : pystr) : bool :=
  (2 <=? length (strip s)) && (length (strip s) <=? 50)
  && forallb spec_name_char (strip s).

(** The check on a received file as the specification words it: the
    extension matches the configured allow-list, case-insensitively, and the
    size does not exceed the configured maximum. *)
Definition spec_upload_allowed `{UnicodeCase} (settings : Settings) (file : Document)
  : bool :=
  endswith_any (lower (default [] (file_name file)))
    (map lower (allowed_extensions_list settings))
  && (default 0 (file_size file) <=? max_file_size_mb settings * 1024 * 1024)%Z.

(** A text that is "fully lowercase": plain ASCII with no capital letter,
    and left as it is by [lower()]. *)
Definition lowercase_text `{UnicodeCase} (e : pystr) : Prop :=
  Forall (fun c => is_ascii c = true ∧ in_range 65 90 c = false) e
  ∧ lower e = e.

(** ** A worked order, to run the model on *)

Definition example_service : gmap pystr pyval :=
  <[u "name" := VStr (u "3D print")]> (<[u "id" := VInt 1]> ∅).

Definition example_document (name : pystr) : Document :=
  {| file_name := Some name; file_size := Some 2097152%Z;
     file_id := u "file-1"; mime_type := None |}.

(** User 1 starts an order, picks service 1, gives a name and an email and
    skips the phone: the session waits for files. *)
Definition order_until_files : list (Z * action) :=
  [ (1%Z, StartOrder 0 (Returns [example_service]));
    (1%Z, SelectService 1 (Returns [example_service]));
    (1%Z, ContactName (u "Jane Doe"));
    (1%Z, ContactEmail (u "Jane@X.com"));
    (1%Z, SkipPhone) ].

(** ... then uploads "model.stl", chooses pla / standard / 30 and pickup:
    the session waits for the confirmation. *)
Definition order_until_confirmation : list (Z * action) :=
  order_until_files ++
  [ (1%Z, FileUpload (Some (example_document (u "model.stl"))) (Returns tt)
            (Returns (VDict ∅)));
    (1%Z, ContinueWithFiles);
    (1%Z, SelectMaterial (u "pla"));
    (1%Z, SelectQuality (u "standard"));
    (1%Z, SelectInfill (u "30"));
    (1%Z, DeliveryPickup) ].

(** ** More of [session_manager.py] *)

(** [SessionManager.get_or_create_session] *)
Definition get_or_create_session (sessions : SessionManager) (uid now : Z)
  : SessionManager * OrderSession :=
  match get_session sessions uid with
  | None => create_session sessions uid now
  | Some session => (sessions, session)
  end.

(** [SessionManager.get_active_sessions_count] *)
Definition get_active_sessions_count (sessions : SessionManager) : nat :=
  size sessions.

(** [SessionManager.cleanup_old_sessions].  [too_old] is the test
    [age_hours > max_age_hours] of the first loop, a comparison of
    floating-point hours that depends on the clock; it is a parameter here.
    The second loop clears the sessions that were found old. *)
Definition cleanup_old_sessions (too_old : OrderSession → bool)
    (sessions : SessionManager) : SessionManager :=
  let old_sessions :=
    map fst (List.filter (fun entry => too_old (snd entry)) (map_to_list sessions)) in
  fold_left (fun store uid => (clear_session store uid).1) old_sessions sessions.

(** ** More of [OrderHandlers] *)

(** The exception handed to [_handle_order_creation_error]: an
    [APIClientError] with its [status_code] ([Optional[int]], [None] for a
    network failure), or any other exception. *)
Inductive creation_error :=
  | APIClientError (status_code : option Z)
  | OtherException.

(** The texts among which it chooses. *)
Inductive creation_error_text :=
  | OrderDataError
  | DataValidationError
  | ServerUnavailable
  | OrderNotCreated
  | UnexpectedCreationError.

(** [OrderHandlers._handle_order_creation_error]: the text it chooses, or
    [None] when the comparison [error.status_code >= 500] is made on a
    missing status code and raises [TypeError]. *)
Definition _handle_order_creation_error (error : creation_error)
  : option creation_error_text :=
  match error with
  | APIClientError status_code =>
      if bool_decide (status_code = Some 400%Z) then Some OrderDataError
      else if bool_decide (status_code = Some 422%Z) then Some DataValidationError
      else match status_code with
           | Some code =>
               if (500 <=? code)%Z then Some ServerUnavailable
               else Some OrderNotCreated
           | None => None
           end
  | OtherException => Some UnexpectedCreationError
  end.

(** The entry that [handle_file_upload] appends for an accepted file. *)
Definition file_info (file : Document) (upload_result : pyval) : pyval :=
  VDict (<[u "upload_result" := upload_result]>
           (<[u "telegram_file_id" := VStr (file_id file)]>
              (<[u "size" := of_opt_int (file_size file)]>
                 (<[u "filename" := VStr (default [] (file_name file))]> ∅)))).

(** The three checks of [handle_file_upload] on a document: it has a name,
    the name ends in a supported format, and the size, if known and not 0,
    is within the limit. *)
Definition upload_accepted `{UnicodeCase} (file : Document) : bool :=
  opt_truthy (file_name file)
  && endswith_any (lower (default [] (file_name file))) supported_formats
  && negb (py_truthy (of_opt_int (file_size file))
           && (max_upload_size <? default 0 (file_size file))%Z).

(** The step that a handler insists on, for those that start with
    [if not session or session.step != ...]. *)
Definition expected_step (a : action) : option OrderStep :=
  match a with
  | ContactName _ | ContactEmail _ | ContactPhone _ | SkipPhone => Some CONTACT_INFO
  | FileUpload _ _ _ => Some FILE_UPLOAD
  | SelectMaterial _ | SelectQuality _ | SelectInfill _ => Some SPECIFICATIONS
  | DeliveryPickup | DeliveryShipping | DeliveryAddress _ => Some DELIVERY
  | Confirm _ _ => Some CONFIRMATION
  | _ => None
  end.

(** The inputs that a handler turns down: a text that fails its validator, a
    document that is not accepted or not transferred, a service that the
    catalogue does not return, an order that the API call does not return. *)
Definition turned_down `{UnicodeCase} (a : action) : bool :=
  match a with
  | ContactName name => negb (_validate_name name)
  | ContactEmail email => negb (_validate_email email)
  | ContactPhone phone => str_truthy phone && negb (_validate_phone phone)
  | DeliveryAddress address => length (strip address) <? 10
  | FileUpload document download upload =>
      match document, download, upload with
      | Some file, Returns _, Returns _ => negb (upload_accepted file)
      | _, _, _ => true
      end
  | SelectService service_id services =>
      match services with
      | Returns l =>
          bool_decide
            (List.find (fun s => py_eq_int (dict_get s (u "id")) service_id) l = None)
      | _ => true
      end
  | Confirm _ create =>
      match create with Returns _ => false | _ => true end
  | _ => false
  end.

(** ** [main.py]: how updates reach the handlers *)

(** The class bound to [self.order_handlers], by the handlers it defines:
    a call [self.order_handlers.m(...)] of a method [m] that the class does
    not define raises [AttributeError].  ([initialize] binds
    [self.order_handlers] before it registers the update handlers, so the
    tests [if self.order_handlers] succeed.) *)
Class HandlerClass := defines : action → bool.

(** [order_handlers.py], from which [main.py] imports [OrderHandlers]: of
    the handlers that [main.py] calls it defines [start_order_process],
    [handle_service_selection] and [confirm_order], and no other. *)
Definition order_handlers_py : HandlerClass :=
  fun a =>
    match a with
    | StartOrder _ _ | SelectService _ _ | Confirm _ _ => true
    | _ => false
    end.

(** [order_handlers_backup.py], which no module imports: its class defines
    them all. *)
Definition order_handlers_backup_py : HandlerClass := fun _ => true.

(** What handling an update leaves: the store, and the calls made, or the
    exception that escapes the update handler. *)
Abbreviation update_result := (SessionManager * outcome (list event))%type.

(** [await self.order_handlers.m(update, context, ...)] *)
Definition call_handler `{UnicodeCase} `{HandlerClass} (sessions : SessionManager)
    (uid : Z) (a : action) : update_result :=
  if defines a
  then ((handle sessions uid a).1, Returns (handle sessions uid a).2)
  else (sessions, RaisesException).

(** Where [TelegramBot.handle_text_message] sends a text, by the state of
    the user's session. *)
Inductive text_route :=
  | ToName
  | ToEmail
  | ToPhone
  | ToAddress
  | ContactsAlreadyCollected
  | UseButtons
  | NoActiveSession.

Definition route_text (sessions : SessionManager) (uid : Z) : text_route :=
  match sessions !! uid with
  | Some session =>
      if bool_decide (step session = CONTACT_INFO) then
        if negb (opt_truthy (customer_name session)) then ToName
        else if negb (opt_truthy (customer_email session)) then ToEmail
        else if bool_decide (customer_phone session = None) then ToPhone
        else ContactsAlreadyCollected
      else if bool_decide (step session = DELIVERY)
              && bool_decide (delivery_needed session = Some true)
      then ToAddress
      else UseButtons
  | None => NoActiveSession
  end.

(** [TelegramBot.handle_text_message].  [tracking] and [subscribing] tell
    whether [tracking_state] and [subscription_state] of the user data are
    'waiting_for_email': the text then goes to the order tracking or to the
    subscription, which do not use the session store (their calls are not
    modelled); the three hints are plain replies.  The calls of the order
    handlers are not guarded: their exception escapes. *)
Definition handle_text_message `{UnicodeCase} `{HandlerClass}
    (sessions : SessionManager) (uid : Z) (tracking subscribing : bool)
    (text : pystr) : update_result :=
  if tracking then (sessions, Returns [])
  else if subscribing then (sessions, Returns [])
  else
    match route_text sessions uid with
    | ToName => call_handler sessions uid (ContactName text)
    | ToEmail => call_handler sessions uid (ContactEmail text)
    | ToPhone => call_handler sessions uid (ContactPhone text)
    | ToAddress => call_handler sessions uid (DeliveryAddress text)
    | ContactsAlreadyCollected | UseButtons | NoActiveSession =>
        (sessions, Returns [])
    end.

(** [TelegramBot.handle_file]; the call of [handle_file_upload] is not
    guarded either. *)
Definition handle_file `{UnicodeCase} `{HandlerClass} (sessions : SessionManager)
    (uid : Z) (document : option Document) (download : outcome unit)
    (upload : outcome pyval) : update_result :=
  let in_order :=
    match sessions !! uid with
    | Some session => bool_decide (step session = FILE_UPLOAD)
    | None => false
    end in
  if in_order then call_handler sessions uid (FileUpload document download upload)
  else
    (sessions,
     Returns
       match document with
       | None => [HandleFileError (u "file_not_found") None]
       | Some file =>
           if negb (opt_truthy (file_name file))
           then [HandleFileError (u "file_not_found") None]
           else if negb (endswith_any (lower (default [] (file_name file)))
                           supported_formats)
           then [HandleFileError (u "invalid_format") (file_name file)]
           else if py_truthy (of_opt_int (file_size file))
                   && (max_upload_size <? default 0 (file_size file))%Z
           then [HandleFileError (u "file_too_large") (file_name file)]
           else []
       end).

(** The handler calls that [TelegramBot.handle_callback_query] makes, once
    the callback data is decoded; texts and documents take the other two
    routes. *)
Definition from_callback (a : action) : bool :=
  match a with
  | ContactName _ | ContactEmail _ | ContactPhone _ | DeliveryAddress _
  | FileUpload _ _ _ => false
  | _ => true
  end.

(** [TelegramBot.handle_callback_query]: the calls are made inside
    [try], and [except Exception] reports what escapes them through
    [BotErrorHandler.handle_api_error]. *)
Definition handle_callback_query `{UnicodeCase} `{HandlerClass}
    (sessions : SessionManager) (uid : Z) (a : action) : update_result :=
  if from_callback a then
    match call_handler sessions uid a with
    | (sessions1, Returns events) => (sessions1, Returns events)
    | (sessions1, _) => (sessions1, Returns [HandleApiError (u "handling callback")])
    end
  else (sessions, Returns []).

(** An update that concerns the order workflow. *)
Inductive update :=
  | CallbackQuery (a : action)
  | OrderCommand (now : Z) (services : outcome (list (gmap pystr pyval)))
  | CancelCommand
  | TextMessage (tracking subscribing : bool) (text : pystr)
  | DocumentMessage (document : option Document) (download : outcome unit)
      (upload : outcome pyval).

(** [handle_callback_query], [order_command], [cancel_command],
    [handle_text_message] and [handle_file], by the kind of update. *)
Definition handle_update `{UnicodeCase} `{HandlerClass} (sessions : SessionManager)
    (uid : Z) (upd : update) : update_result :=
  match upd with
  | CallbackQuery a => handle_callback_query sessions uid a
  | OrderCommand now services => call_handler sessions uid (StartOrder now services)
  | CancelCommand => ((clear_session sessions uid).1, Returns [])
  | TextMessage tracking subscribing text =>
      handle_text_message sessions uid tracking subscribing text
  | DocumentMessage document download upload =>
      handle_file sessions uid document download upload
  end.

(** The stores that the bot can produce: updates of the users, and the
    hourly [cleanup_sessions_periodically]. *)
Inductive bot_reachable `{UnicodeCase} `{HandlerClass} : SessionManager → Prop :=
  | bot_reachable_empty : bot_reachable ∅
  | bot_reachable_step sessions uid upd :
      bot_reachable sessions → bot_reachable (handle_update sessions uid upd).1
  | bot_reachable_cleanup sessions too_old :
      bot_reachable sessions → bot_reachable (cleanup_old_sessions too_old sessions).

(** The store after a list of updates from one user. *)
Definition run_updates `{UnicodeCase} `{HandlerClass} (sessions : SessionManager)
    (uid : Z) (updates : list update) : SessionManager :=
  fold_left (fun store upd => (handle_update store uid upd).1) updates sessions.

(** ** What the handlers keep true of the stored sessions *)

(** Every way in which a handler writes the session of the acting user:
    [session_write uid old new] when [new] is stored for [uid] where [old]
    was (or nothing, for [None]). *)
Inductive session_write `{UnicodeCase} (uid : Z)
  : option OrderSession → OrderSession → Prop :=
  | write_start old now :
      session_write uid old (set_step SERVICE_SELECTION (new_session uid now))
  | write_step s target :
      target ≠ START → target ≠ COMPLETED →
      session_write uid (Some s) (set_step target s)
  | write_service s id name :
      session_write uid (Some s)
        (set_step CONTACT_INFO (set_service_name name (set_service_id (Some id) s)))
  | write_name s name :
      step s = CONTACT_INFO → _validate_name name = true →
      session_write uid (Some s) (set_customer_name (Some (strip name)) s)
  | write_email s email :
      step s = CONTACT_INFO → _validate_email email = true →
      session_write uid (Some s) (set_customer_email (Some (lower (strip email))) s)
  | write_phone s phone :
      step s = CONTACT_INFO → phone ≠ [] → _validate_phone phone = true →
      session_write uid (Some s)
        (set_step FILE_UPLOAD (set_customer_phone (Some (strip phone)) s))
  | write_no_phone s :
      step s = CONTACT_INFO →
      session_write uid (Some s) (set_step FILE_UPLOAD (set_customer_phone None s))
  | write_file s file upload_result :
      step s = FILE_UPLOAD → upload_accepted file = true →
      session_write uid (Some s)
        (set_files (files s ++ [file_info file upload_result]) s)
  | write_remove_file s :
      files s ≠ [] →
      session_write uid (Some s) (set_files (removelast (files s)) s)
  | write_spec s key value :
      step s = SPECIFICATIONS → key = u "material" ∨ key = u "quality" →
      session_write uid (Some s) (set_spec key (VStr value) s)
  | write_infill s value :
      step s = SPECIFICATIONS →
      session_write uid (Some s)
        (set_step DELIVERY (set_spec (u "infill") (VStr value) s))
  | write_pop_quality_infill s :
      session_write uid (Some s) (pop_spec (u "infill") (pop_spec (u "quality") s))
  | write_pop_infill s :
      session_write uid (Some s) (pop_spec (u "infill") s)
  | write_pickup s :
      step s = DELIVERY →
      session_write uid (Some s)
        (set_step CONFIRMATION
           (set_delivery_details None (set_delivery_needed (Some false) s)))
  | write_shipping s :
      step s = DELIVERY →
      session_write uid (Some s) (set_delivery_needed (Some true) s)
  | write_address s address :
      step s = DELIVERY → 10 ≤ length (strip address) →
      session_write uid (Some s)
        (set_step CONFIRMATION (set_delivery_details (Some (strip address)) s)).

(** What holds of every session that the handlers store for [uid]. *)
Definition stored_ok `{UnicodeCase} (uid : Z) (s : OrderSession) : Prop :=
  user_id s = uid
  ∧ (step s ≠ START ∧ step s ≠ COMPLETED)
  ∧ (∀ n, customer_name s = Some n → _validate_name n = true ∧ strip n = n)
  ∧ (∀ e, customer_email s = Some e → _validate_email e = true)
  ∧ (∀ p, customer_phone s = Some p →
          p ≠ [] ∧ _validate_phone p = true ∧ strip p = p)
  ∧ (∀ d, delivery_details s = Some d → 10 ≤ length d ∧ strip d = d)
  ∧ Forall (fun v => ∃ file r, v = file_info file r ∧ upload_accepted file = true)
      (files s)
  ∧ (∀ k v, specifications s !! k = Some v →
            k ∈ required_specs ∧ ∃ x, v = VStr x).

(** A session for which nothing has been collected but, at most, the
    service. *)
Definition only_service_chosen (s : OrderSession) : Prop :=
  (step s = SERVICE_SELECTION ∨ step s = CONTACT_INFO)
  ∧ customer_name s = None ∧ customer_email s = None ∧ customer_phone s = None
  ∧ files s = [] ∧ specifications s = ∅
  ∧ delivery_needed s = None ∧ delivery_details s = None.

(** The order in which the bot collects the data. *)
Definition collected_in_order (s : OrderSession) : Prop :=
  (customer_email s ≠ None → opt_truthy (customer_name s) = true)
  ∧ (customer_phone s ≠ None → opt_truthy (customer_email s) = true)
  ∧ (delivery_details s ≠ None → delivery_needed s = Some true).

(** ** A worked order through the bot *)

(** An order from the command to the address, every input being accepted. *)
Definition order_with_shipping (now : Z) (catalogue : list (gmap pystr pyval))
    (service_id : Z) (name email phone : pystr) (file : Document)
    (upload_result : pyval) (material quality infill address : pystr)
  : list update :=
  [ OrderCommand now (Returns catalogue);
    CallbackQuery (SelectService service_id (Returns catalogue));
    TextMessage false false name;
    TextMessage false false email;
    TextMessage false false phone;
    DocumentMessage (Some file) (Returns tt) (Returns upload_result);
    CallbackQuery ContinueWithFiles;
    CallbackQuery (SelectMaterial material);
    CallbackQuery (SelectQuality quality);
    CallbackQuery (SelectInfill infill);
    CallbackQuery DeliveryShipping;
    TextMessage false false address ].

Definition example_order : list update :=
  order_with_shipping 0 [example_service] 1 (u "Jane Doe") (u "Jane@X.com")
    (u "+7 900 123-45-67") (example_document (u "model.stl")) (VDict ∅)
    (u "pla") (u "standard") (u "30") (u "1 Main Street, Springfield").

(* ===================================================================== *)
(** * Part II: properties                                                  *)
(* ===================================================================== *)

(** ** The matcher decides the language *)

Module RegexFacts.

(** Inversion on the shapes that occur in the patterns. *)
Lemma matches_empty s : ¬ matches Empty s.
Proof. inversion 1. Qed.

Lemma matches_eps s : matches Eps s ↔ s = [].
Proof. split; [by inversion 1 | intros ->; constructor]. Qed.

Lemma matches_sym cls s : matches (Sym cls) s ↔ ∃ c, s = [c] ∧ cls c = true.
Proof.
  split.
  - inversion 1; subst; eauto.
  - intros (c & -> & H). by constructor.
Qed.

Lemma matches_cat r1 r2 s :
  matches (Cat r1 r2) s ↔ ∃ s1 s2, s = s1 ++ s2 ∧ matches r1 s1 ∧ matches r2 s2.
Proof.
  split.
  - inversion 1; subst; eauto.
  - intros (s1 & s2 & -> & H1 & H2). by constructor.
Qed.

Lemma matches_alt r1 r2 s : matches (Alt r1 r2) s ↔ matches r1 s ∨ matches r2 s.
Proof.
  split.
  - inversion 1; subst; auto.
  - intros [H|H]; [by apply MAltL | by apply MAltR].
Qed.

Lemma nullable_matches r : nullable r = true ↔ matches r [].
Proof.
  induction r as [| |cls|r1 IH1 r2 IH2|r1 IH1 r2 IH2|r IH]; simpl.
  - split; [discriminate | by intros ?%matches_empty].
  - by rewrite matches_eps.
  - rewrite matches_sym. split; [discriminate | by intros (c & ? & _)].
  - rewrite andb_true_iff, IH1, IH2, matches_cat. split.
    + intros [H1 H2]. by exists [], [].
    + intros (s1 & s2 & Heq & H1 & H2).
      destruct s1, s2; try discriminate. auto.
  - by rewrite orb_true_iff, IH1, IH2, matches_alt.
  - split; [constructor | reflexivity].
Qed.

Lemma matches_star_cons r c s :
  matches (Star r) (c :: s) →
  ∃ s1 s2, s = s1 ++ s2 ∧ matches r (c :: s1) ∧ matches (Star r) s2.
Proof.
  intros H. remember (Star r) as r' eqn:Hr. remember (c :: s) as t eqn:Ht.
  revert s Ht.
  induction H as [| | | | | |r0 s1 s2 H1 _ H2 IH2]; intros t' Ht; try discriminate.
  injection Hr as ->.
  destruct s1 as [|c1 s1]; simpl in Ht.
  - apply IH2; auto.
  - injection Ht as -> <-. eauto.
Qed.

Lemma matches_cat_cons r1 r2 c s :
  matches (Cat r1 r2) (c :: s)
  ↔ (∃ s1 s2, s = s1 ++ s2 ∧ matches r1 (c :: s1) ∧ matches r2 s2)
    ∨ (matches r1 [] ∧ matches r2 (c :: s)).
Proof.
  rewrite matches_cat. split.
  - intros (s1 & s2 & Heq & H1 & H2). destruct s1 as [|c1 s1]; simpl in Heq.
    + subst s2. by right.
    + injection Heq as -> ->. left. eauto.
  - intros [(s1 & s2 & -> & H1 & H2)|[H1 H2]].
    + by exists (c :: s1), s2.
    + by exists [], (c :: s).
Qed.

Lemma deriv_matches c r : ∀ s, matches (deriv c r) s ↔ matches r (c :: s).
Proof.
  induction r as [| |cls|r1 IH1 r2 IH2|r1 IH1 r2 IH2|r IH]; intros s; simpl.
  - split; by intros ?%matches_empty.
  - rewrite matches_eps. split; [by intros ?%matches_empty | discriminate].
  - rewrite matches_sym. destruct (cls c) eqn:Hc.
    + rewrite matches_eps. split.
      * intros ->. eauto.
      * by intros (c' & [= -> ->] & _).
    + split; [by intros ?%matches_empty |].
      intros (c' & [= -> ->] & ?). congruence.
  - rewrite matches_cat_cons. destruct (nullable r1) eqn:Hn.
    + rewrite matches_alt, matches_cat, IH2.
      apply nullable_matches in Hn. split.
      * intros [(s1 & s2 & -> & H1 & H2)|H]; [left|right; done].
        exists s1, s2. by rewrite <- IH1.
      * intros [(s1 & s2 & -> & H1 & H2)|[_ H]]; [left|right; done].
        exists s1, s2. by rewrite IH1.
    + rewrite matches_cat. split.
      * intros (s1 & s2 & -> & H1 & H2). left.
        exists s1, s2. by rewrite <- IH1.
      * intros [(s1 & s2 & -> & H1 & H2)|[H _]].
        -- exists s1, s2. by rewrite IH1.
        -- apply nullable_matches in H. congruence.
  - by rewrite !matches_alt, IH1, IH2.
  - rewrite matches_cat. split.
    + intros (s1 & s2 & -> & H1 & H2).
      apply IH in H1. exact (MStarApp _ (c :: s1) s2 H1 H2).
    + intros H. apply matches_star_cons in H as (s1 & s2 & -> & H1 & H2).
      exists s1, s2. by rewrite IH.
Qed.

Theorem matchb_matches r s : matchb r s = true ↔ matches r s.
Proof.
  revert r. induction s as [|c s IH]; intros r; simpl.
  - apply nullable_matches.
  - rewrite IH. apply deriv_matches.
Qed.

Lemma matches_chr c s : matches (chr c) s ↔ s = [c].
Proof.
  unfold chr. rewrite matches_sym. split.
  - intros (c' & -> & H). apply N.eqb_eq in H. by subst.
  - intros ->. exists c. split; [done | apply N.eqb_refl].
Qed.

Lemma matches_opt r s : matches (re_opt r) s ↔ s = [] ∨ matches r s.
Proof. unfold re_opt. by rewrite matches_alt, matches_eps. Qed.

Lemma matches_star_sym cls s :
  matches (Star (Sym cls)) s ↔ forallb cls s = true.
Proof.
  split.
  - intros H. remember (Star (Sym cls)) as r eqn:Hr.
    induction H as [| | | | | |r0 s1 s2 H1 _ H2 IH2]; try discriminate; [done|].
    injection Hr as ->. apply matches_sym in H1 as (c & -> & Hc).
    simpl. rewrite Hc. by apply IH2.
  - induction s as [|c s IH]; simpl; [constructor|].
    rewrite andb_true_iff. intros [Hc Hs].
    apply (MStarApp _ [c] s); [by constructor | auto].
Qed.

Lemma matches_plus_sym cls s :
  matches (re_plus (Sym cls)) s ↔ s ≠ [] ∧ forallb cls s = true.
Proof.
  unfold re_plus. rewrite matches_cat. split.
  - intros (s1 & s2 & -> & H1 & H2).
    apply matches_sym in H1 as (c & -> & Hc). apply matches_star_sym in H2.
    simpl. by rewrite Hc, H2.
  - destruct s as [|c s]; [by intros [? _]|]. simpl.
    rewrite andb_true_iff. intros [_ [Hc Hs]].
    exists [c], s. split_and!; [done | by constructor | by apply matches_star_sym].
Qed.

Lemma matches_times_sym n cls : ∀ s,
  matches (re_times n (Sym cls)) s ↔ length s = n ∧ forallb cls s = true.
Proof.
  induction n as [|n IH]; intros s; simpl.
  - rewrite matches_eps. destruct s; simpl; intuition (try discriminate; auto).
  - rewrite matches_cat. split.
    + intros (s1 & s2 & -> & H1 & H2).
      apply matches_sym in H1 as (c & -> & Hc). apply IH in H2 as [<- H2].
      simpl. by rewrite Hc, H2.
    + destruct s as [|c s]; simpl; [intros [? _]; discriminate|].
      rewrite andb_true_iff. intros [Hl [Hc Hs]].
      exists [c], s. split_and!; [done | by constructor |].
      apply IH. split; [lia | done].
Qed.

Lemma matches_upto_sym n cls : ∀ s,
  matches (re_upto n (Sym cls)) s ↔ length s ≤ n ∧ forallb cls s = true.
Proof.
  induction n as [|n IH]; intros s; simpl.
  - rewrite matches_eps. destruct s; simpl; split; try done.
    + intros [? _]. lia.
  - rewrite matches_opt, matches_cat. split.
    + intros [->|(s1 & s2 & -> & H1 & H2)]; [simpl; split; [lia | done]|].
      apply matches_sym in H1 as (c & -> & Hc). apply IH in H2 as [Hl H2].
      simpl. rewrite Hc, H2. split; [lia | done].
    + destruct s as [|c s]; simpl; [by left|].
      rewrite andb_true_iff. intros [Hl [Hc Hs]]. right.
      exists [c], s. split_and!; [done | by constructor |].
      apply IH. split; [lia | done].
Qed.

Lemma matches_repeat_sym m n cls s :
  m ≤ n →
  matches (re_repeat m n (Sym cls)) s
  ↔ m ≤ length s ∧ length s ≤ n ∧ forallb cls s = true.
Proof.
  intros Hmn. unfold re_repeat. rewrite matches_cat. split.
  - intros (s1 & s2 & -> & H1 & H2).
    apply matches_times_sym in H1 as [Hl1 H1].
    apply matches_upto_sym in H2 as [Hl2 H2].
    rewrite length_app, forallb_app, H1, H2. split_and!; [lia | lia | done].
  - intros (Hlo & Hhi & Hall).
    exists (take m s), (drop m s).
    rewrite <- (take_drop m s) in Hall. rewrite forallb_app in Hall.
    apply andb_true_iff in Hall as [Ht Hd].
    split_and!.
    + by rewrite take_drop.
    + apply matches_times_sym. split; [rewrite length_take; lia | done].
    + apply matches_upto_sym. split; [rewrite length_drop; lia | done].
Qed.

Lemma matches_atleast_sym m cls s :
  matches (re_atleast m (Sym cls)) s ↔ m ≤ length s ∧ forallb cls s = true.
Proof.
  unfold re_atleast. rewrite matches_cat. split.
  - intros (s1 & s2 & -> & H1 & H2).
    apply matches_times_sym in H1 as [Hl1 H1]. apply matches_star_sym in H2.
    rewrite length_app, forallb_app, H1, H2. split; [lia | done].
  - intros (Hlo & Hall).
    exists (take m s), (drop m s).
    rewrite <- (take_drop m s) in Hall. rewrite forallb_app in Hall.
    apply andb_true_iff in Hall as [Ht Hd].
    split_and!.
    + by rewrite take_drop.
    + apply matches_times_sym. split; [rewrite length_take; lia | done].
    + by apply matches_star_sym.
Qed.

(** [re.match] with both anchors: the pattern covers the text, up to one
    final newline. *)
Lemma re_match_spec r s :
  re_match r s = true
  ↔ ∃ s0 tail, s = s0 ++ tail ∧ matches r s0 ∧ (tail = [] ∨ tail = [10%N]).
Proof.
  unfold re_match, re_dollar. rewrite matchb_matches, matches_cat.
  split; intros (s0 & tail & -> & H0 & Ht); exists s0, tail; split_and!; auto.
  - apply matches_alt in Ht as [Ht|Ht];
      [left; by apply matches_eps | right; by apply matches_chr].
  - apply matches_alt. destruct Ht as [->| ->];
      [left; by apply matches_eps | right; by apply matches_chr].
Qed.

(** Every character of a matched text is accepted by a class of the
    pattern. *)
Fixpoint classes_within (P : N → Prop) (r : regex) : Prop :=
  match r with
  | Empty | Eps => True
  | Sym cls => ∀ c, cls c = true → P c
  | Cat r1 r2 | Alt r1 r2 => classes_within P r1 ∧ classes_within P r2
  | Star r1 => classes_within P r1
  end.

Lemma matches_within P r s :
  classes_within P r → matches r s → Forall P s.
Proof.
  intros Hr H. induction H; simpl in Hr.
  - constructor.
  - constructor; [auto | constructor].
  - destruct Hr. apply Forall_app; auto.
  - destruct Hr. auto.
  - destruct Hr. auto.
  - constructor.
  - apply Forall_app; auto.
Qed.

End RegexFacts.
Import RegexFacts.

(** ** Strings and character classes *)

Ltac class_arith :=
  unfold is_space, is_ascii, lower_ascii, in_range in *;
  repeat match goal with
    | H : _ = false |- _ => apply not_true_iff_false in H
    | |- _ = false => apply not_true_iff_false; intro
    end;
  rewrite ?orb_true_iff, ?andb_true_iff, ?negb_true_iff, ?N.leb_le, ?N.ltb_lt,
    ?N.eqb_eq in *;
  try lia.

Lemma in_range_spec lo hi c : in_range lo hi c = true ↔ (lo ≤ c ∧ c ≤ hi)%N.
Proof. unfold in_range. rewrite andb_true_iff, !N.leb_le. done. Qed.

Lemma lstrip_spec s :
  ∃ p, s = p ++ lstrip s ∧ forallb is_space p = true.
Proof.
  induction s as [|c s (p & Hs & Hp)]; simpl.
  - by exists [].
  - destruct (is_space c) eqn:Hc.
    + exists (c :: p). simpl. rewrite Hc, Hp. by rewrite Hs at 1.
    + by exists [].
Qed.

Lemma lstrip_head s c t : lstrip s = c :: t → is_space c = false.
Proof.
  induction s as [|c' s IH]; simpl; [done|].
  destruct (is_space c') eqn:Hc; [done|]. by intros [= -> _].
Qed.

Lemma forallb_rev_eq {A} (P : A → bool) (l : list A) :
  forallb P (rev l) = forallb P l.
Proof.
  induction l as [|a l IH]; simpl; [done|].
  rewrite forallb_app, IH. simpl. rewrite andb_true_r. apply andb_comm.
Qed.

Lemma rstrip_spec s :
  ∃ q, s = rstrip s ++ q ∧ forallb is_space q = true.
Proof.
  unfold rstrip. destruct (lstrip_spec (rev s)) as (p & Hs & Hp).
  exists (rev p). split.
  - rewrite <- rev_app_distr, <- Hs. by rewrite rev_involutive.
  - by rewrite forallb_rev_eq.
Qed.

Lemma rstrip_last s t c : rstrip s = t ++ [c] → is_space c = false.
Proof.
  unfold rstrip. intros H. apply (f_equal (@rev N)) in H.
  rewrite rev_involutive, rev_app_distr in H. simpl in H.
  by apply lstrip_head in H.
Qed.

Lemma strip_spec s :
  ∃ p q, s = p ++ strip s ++ q
         ∧ forallb is_space p = true ∧ forallb is_space q = true.
Proof.
  unfold strip. destruct (lstrip_spec s) as (p & Hs & Hp).
  destruct (rstrip_spec (lstrip s)) as (q & Hl & Hq).
  exists p, q. by rewrite <- Hl.
Qed.

Lemma strip_last s t c : strip s = t ++ [c] → is_space c = false.
Proof. apply rstrip_last. Qed.

Lemma strip_nil : strip [] = [].
Proof. reflexivity. Qed.

Lemma elem_of_strip s c : c ∈ s → is_space c = false → c ∈ strip s.
Proof.
  destruct (strip_spec s) as (p & q & Hs & Hp & Hq). intros Hin Hc.
  rewrite Hs in Hin. rewrite !elem_of_app in Hin.
  rewrite forallb_forall in Hp, Hq.
  destruct Hin as [Hin|[Hin|Hin]]; [|done|].
  - apply list_elem_of_In, Hp in Hin. congruence.
  - apply list_elem_of_In, Hq in Hin. congruence.
Qed.

Lemma forallb_strip P s : forallb P s = true → forallb P (strip s) = true.
Proof.
  destruct (strip_spec s) as (p & q & Hs & _). intros H. rewrite Hs in H.
  rewrite !forallb_app, !andb_true_iff in H. tauto.
Qed.

(** A text without an outer blank is its own [strip()]. *)
Lemma lstrip_id c s : is_space c = false → lstrip (c :: s) = c :: s.
Proof. intros H. simpl. by rewrite H. Qed.

(** Where the decimal digits lie: the ASCII digits, and three zones that
    hold no letter of [name_class] and no blank. *)
Lemma is_decimal_zone c :
  is_decimal c = true →
  ((48 ≤ c ∧ c ≤ 57) ∨ (1632 ≤ c ∧ c ≤ 4249) ∨ (6112 ≤ c ∧ c ≤ 7257)
   ∨ 42528 ≤ c)%N.
Proof.
  unfold is_decimal. rewrite existsb_exists. intros ([lo hi] & Hin & Hr).
  assert (Hz : forallb (fun r : N * N =>
                ((fst r =? 48) && (snd r =? 57)
                 || (1632 <=? fst r) && (snd r <=? 4249)
                 || (6112 <=? fst r) && (snd r <=? 7257)
                 || (42528 <=? fst r))%N) decimal_ranges = true)
    by (vm_compute; reflexivity).
  rewrite forallb_forall in Hz. specialize (Hz _ Hin). simpl in *.
  apply in_range_spec in Hr.
  rewrite ?orb_true_iff, ?andb_true_iff, ?N.leb_le, ?N.eqb_eq in Hz. lia.
Qed.

Lemma decimal_not_name c : is_decimal c = true → name_class c = false.
Proof. unfold name_class. intros H%is_decimal_zone. class_arith. Qed.

Lemma decimal_not_space c : is_decimal c = true → is_space c = false.
Proof. intros H%is_decimal_zone. class_arith. Qed.

Lemma lower_ascii_text `{UnicodeCase} s :
  forallb is_ascii s = true → lower s = map lower_ascii s.
Proof. unfold lower. by intros ->. Qed.

Lemma lower_ascii_not_upper c : in_range 65 90 (lower_ascii c) = false.
Proof.
  unfold lower_ascii. destruct (in_range 65 90 c) eqn:Hc; [|done].
  class_arith.
Qed.

Lemma lower_ascii_ascii c : is_ascii c = true → is_ascii (lower_ascii c) = true.
Proof.
  unfold lower_ascii. destruct (in_range 65 90 c) eqn:Hc; [|done].
  intros _. class_arith.
Qed.

Lemma lower_ascii_idem c : lower_ascii (lower_ascii c) = lower_ascii c.
Proof.
  unfold lower_ascii at 1. by rewrite lower_ascii_not_upper.
Qed.

(** ** The validators *)

Lemma name_match t :
  re_match name_pattern t = true ↔ t ≠ [] ∧ forallb name_class t = true.
Proof.
  rewrite re_match_spec. unfold name_pattern. split.
  - intros (s0 & tail & -> & H0 & Ht).
    apply matches_plus_sym in H0 as [Hne Hall]. split.
    + by destruct s0.
    + rewrite forallb_app, Hall. by destruct Ht as [->| ->].
  - intros [Hne Hall]. exists t, []. rewrite app_nil_r.
    split_and!; [done | by apply matches_plus_sym | by left].
Qed.

Lemma validate_name_iff s :
  _validate_name s = true
  ↔ 2 ≤ length (strip s) ∧ length (strip s) ≤ 50
    ∧ forallb name_class (strip s) = true.
Proof.
  unfold _validate_name. destruct s as [|c s].
  - simpl. split; [done | intros [? _]; lia].
  - remember (strip (c :: s)) as t. simpl negb. simpl orb.
    destruct (Nat.ltb_spec (length t) 2) as [Hlo|Hlo]; [split; [done | lia]|].
    destruct (Nat.ltb_spec 50 (length t)) as [Hhi|Hhi]; [split; [done | lia]|].
    rewrite name_match. split.
    + intros [_ H]. split_and!; [done | lia | done].
    + intros (_ & _ & H). split; [|done]. destruct t; simpl in *; [lia | done].
Qed.

(** C5 (as amended).  [_validate_name(s)] holds exactly when the trimmed
    text has 2 to 50 characters, each of them a Latin letter a-z or A-Z, a
    Russian Cyrillic letter (а-я, А-Я, ё, Ё), a white-space character, a
    hyphen or an apostrophe.  In particular it holds for every text whose
    trimmed form has 2 to 50 characters of [A-Za-z\- '], and it fails for a
    text that contains a decimal digit, for a trimmed length below 2 or
    above 50, and for the empty text. *)
Theorem validate_name_spec :
  (∀ s, _validate_name s = true
        ↔ 2 ≤ length (strip s) ∧ length (strip s) ≤ 50
          ∧ forallb name_class (strip s) = true)
  ∧ (∀ c, name_class c = true
          ↔ ((97 ≤ c ∧ c ≤ 122) ∨ (65 ≤ c ∧ c ≤ 90)
             ∨ (1072 ≤ c ∧ c ≤ 1103) ∨ (1040 ≤ c ∧ c ≤ 1071)
             ∨ c = 1105 ∨ c = 1025)%N
            ∨ is_space c = true ∨ c = 45%N ∨ c = 39%N)
  ∧ (∀ s, 2 ≤ length (strip s) → length (strip s) ≤ 50 →
          forallb (fun c => latin_class c || (c =? 45)%N || (c =? 32)%N
                            || (c =? 39)%N) (strip s) = true →
          _validate_name s = true)
  ∧ (∀ s c, c ∈ s → is_decimal c = true → _validate_name s = false)
  ∧ (∀ s, length (strip s) < 2 ∨ 50 < length (strip s) → _validate_name s = false)
  ∧ _validate_name [] = false.
Proof.
  split_and!.
  - apply validate_name_iff.
  - intros c. unfold name_class.
    rewrite !orb_true_iff, !in_range_spec, !N.eqb_eq. tauto.
  - intros s Hlo Hhi Hall. apply validate_name_iff. split_and!; [done..|].
    rewrite forallb_forall in *. intros c Hc. specialize (Hall c Hc).
    unfold name_class, latin_class, is_space in *.
    rewrite !orb_true_iff in *.
    destruct Hall as [[[[H|H]|H]|H]|H]; auto 20.
    apply N.eqb_eq in H as ->. vm_compute. auto 20.
  - intros s c Hin Hd. apply not_true_is_false. intros Hv.
    apply validate_name_iff in Hv as (_ & _ & Hall).
    rewrite forallb_forall in Hall.
    pose proof (decimal_not_space c Hd) as Hsp.
    pose proof (elem_of_strip s c Hin Hsp) as Hin'.
    apply list_elem_of_In, Hall in Hin'.
    rewrite (decimal_not_name c Hd) in Hin'. done.
  - intros s Hlen. apply not_true_is_false. intros Hv.
    apply validate_name_iff in Hv. lia.
  - reflexivity.
Qed.

(** C5: the claim as stated fails.  "José" is made of letters only, one of
    them accented, and [_validate_name] rejects it; a name with a tab inside
    is accepted although a tab is none of letter, space, hyphen and
    apostrophe. *)
Lemma validate_name_rejects_accented_letter :
  _validate_name (u "José") = false
  ∧ spec_validate_name (u "José") = true
  ∧ _validate_name [97; 9; 98]%N = true
  ∧ spec_validate_name [97; 9; 98]%N = false.
Proof. vm_compute. done. Qed.

Lemma phone_cleaned_filter s :
  phone_cleaned s = filter (fun c => is_decimal c || (c =? 43)%N = true) s.
Proof.
  unfold phone_cleaned, re_sub_delete, phone_junk_class.
  induction s as [|c s IH]; [done|].
  rewrite !filter_cons, IH.
  destruct (is_decimal c || (c =? 43)%N) eqn:Hc; simpl;
    repeat case_decide; done.
Qed.

Lemma phone_cleaned_no_newline s : 10%N ∉ phone_cleaned s.
Proof.
  rewrite phone_cleaned_filter, list_elem_of_filter. intros [H _].
  vm_compute in H. done.
Qed.

Lemma phone_match t :
  10%N ∉ t →
  re_match phone_pattern t = true
  ↔ ∃ sign d rest,
      t = sign ++ d :: rest ∧ (sign = [] ∨ sign = [43%N])
      ∧ (49 ≤ d ∧ d ≤ 57)%N ∧ forallb is_decimal rest = true
      ∧ 6 ≤ length rest ∧ length rest ≤ 14.
Proof.
  intros Hnl. rewrite re_match_spec. unfold phone_pattern. split.
  - intros (s0 & tail & -> & H0 & Ht).
    destruct Ht as [->| ->]; [|exfalso; apply Hnl; set_solver].
    rewrite app_nil_r.
    apply matches_cat in H0 as (sign & s1 & -> & Hsign & H1).
    apply matches_cat in H1 as (s2 & rest & -> & Hd & Hrest).
    apply matches_opt in Hsign. apply matches_sym in Hd as (d & -> & Hd).
    apply matches_repeat_sym in Hrest as (? & ? & ?); [|lia].
    apply in_range_spec in Hd. exists sign, d, rest.
    split_and!; try done; try lia.
    destruct Hsign as [->|Hsign]; [by left | right; by apply matches_chr].
  - intros (sign & d & rest & -> & Hsign & Hd & Hall & Hlo & Hhi).
    exists (sign ++ d :: rest), []. rewrite app_nil_r. split_and!; [done| |by left].
    apply matches_cat. exists sign, (d :: rest). split_and!; [done| |].
    + apply matches_opt. destruct Hsign as [->| ->]; [by left|right].
      by apply matches_chr.
    + apply matches_cat. exists [d], rest. split_and!; [done| |].
      * apply matches_sym. exists d. split; [done | by apply in_range_spec].
      * apply matches_repeat_sym; [lia | done].
Qed.

(** C4 (as amended).  [_validate_phone] accepts the empty text.  For any
    other text it deletes every character that is neither a decimal digit
    nor a plus sign (every plus sign is kept, wherever it stands) and
    accepts exactly when what is left is an optional plus sign, a digit 1
    to 9 and then 6 to 14 further digits: 7 to 15 digits, the first of them
    not zero, and no plus sign but a leading one.  "+7 900 123-45-67" is
    accepted and "123" is rejected. *)
Theorem validate_phone_spec :
  _validate_phone [] = true
  ∧ (∀ s, phone_cleaned s = filter (fun c => is_decimal c || (c =? 43)%N = true) s)
  ∧ (∀ s, s ≠ [] →
          _validate_phone s = true
          ↔ ∃ sign d rest,
              phone_cleaned s = sign ++ d :: rest ∧ (sign = [] ∨ sign = [43%N])
              ∧ (49 ≤ d ∧ d ≤ 57)%N ∧ forallb is_decimal rest = true
              ∧ 6 ≤ length rest ∧ length rest ≤ 14)
  ∧ _validate_phone (u "+7 900 123-45-67") = true
  ∧ _validate_phone (u "123") = false.
Proof.
  split_and!.
  - reflexivity.
  - apply phone_cleaned_filter.
  - intros s Hs. unfold _validate_phone. destruct s as [|c s]; [done|].
    simpl negb. cbv iota. apply phone_match, phone_cleaned_no_newline.
  - vm_compute. reflexivity.
  - vm_compute. reflexivity.
Qed.

(** C4: the claim as stated fails.  What is left of "0123456" has seven
    digits, yet the number is rejected because it starts with a zero; and a
    plus sign that is not in front is kept, so "12+345678" is rejected
    too. *)
Lemma validate_phone_rejects_leading_zero :
  length (filter (fun c => is_decimal c = true) (phone_cleaned (u "0123456"))) = 7
  ∧ spec_validate_phone (u "0123456") = true
  ∧ _validate_phone (u "0123456") = false
  ∧ spec_validate_phone (u "12+345678") = true
  ∧ _validate_phone (u "12+345678") = false.
Proof. vm_compute. done. Qed.

(** ** The session: completeness and payload *)

(** C7.  [is_complete()] holds exactly when the name, the email and the
    service id are set and there is at least one file; two sessions that
    agree on these four attributes have the same answer, whatever their
    specifications and delivery attributes are. *)
Theorem is_complete_spec :
  (∀ s, is_complete s = true
        ↔ customer_name s ≠ None ∧ customer_email s ≠ None
          ∧ service_id s ≠ None ∧ files s ≠ [])
  ∧ (∀ s s', customer_name s = customer_name s' →
             customer_email s = customer_email s' →
             service_id s = service_id s' →
             files s = files s' →
             is_complete s = is_complete s')
  ∧ (∀ s specs needed details,
       is_complete
         (set_delivery_details details
            (set_delivery_needed needed (set_specifications specs s)))
       = is_complete s).
Proof.
  split_and!.
  - intros s. unfold is_complete. simpl.
    rewrite !andb_true_iff, !bool_decide_eq_true, Nat.ltb_lt.
    destruct (files s); simpl; split; intros; destruct_and?; split_and?;
      try done; lia.
  - intros s s' Hn He Hs Hf. unfold is_complete. by rewrite Hn, He, Hs, Hf.
  - done.
Qed.

(** String constants are evaluated to their code points before keys are
    compared. *)
Ltac eval_keys :=
  repeat match goal with
    | |- context [u ?s] =>
        let v := eval vm_compute in (u s) in change (u s) with v
    end.
Ltac key_ne := vm_compute; discriminate.
Ltac in_keys :=
  repeat first [ apply list_elem_of_here | apply list_elem_of_further ].
Ltac lookup_key :=
  repeat first
    [ rewrite lookup_insert_eq
    | rewrite lookup_insert_ne by key_ne
    | rewrite lookup_empty ].

(** The two entries of the payload that carry the email. *)
Lemma to_order_data_email (s : OrderSession) :
  to_order_data s !! u "customer_email" = Some (of_opt_str (customer_email s))
  ∧ to_order_data s !! u "customer_contact" = Some (of_opt_str (customer_email s)).
Proof.
  unfold to_order_data. eval_keys.
  split; destruct (delivery_needed s), (opt_truthy (delivery_details s));
    by lookup_key.
Qed.



(** ** The session store *)

Lemma clear_session_fst sessions uid :
  (clear_session sessions uid).1 = delete uid sessions.
Proof.
  unfold clear_session. destruct (sessions !! uid) eqn:H; simpl; [done|].
  symmetry. by apply delete_id.
Qed.

(** C9.  [clear_session] answers true exactly when the user had a session,
    and leaves a store without one for that user (the other users keep
    theirs).  A second call in a row answers false and leaves the store as
    it found it. *)
Theorem clear_session_spec (sessions : SessionManager) (uid : Z) :
  ((clear_session sessions uid).2 = true ↔ is_Some (sessions !! uid))
  ∧ (clear_session sessions uid).1 !! uid = None
  ∧ (∀ other, other ≠ uid →
       (clear_session sessions uid).1 !! other = sessions !! other)
  ∧ clear_session (clear_session sessions uid).1 uid
    = ((clear_session sessions uid).1, false).
Proof.
  rewrite clear_session_fst. split_and!.
  - unfold clear_session. destruct (sessions !! uid); simpl.
    + split; eauto.
    + split; [done | by intros [? ?]].
  - apply lookup_delete_eq.
  - intros other Hne. by apply lookup_delete_ne.
  - unfold clear_session at 1. by rewrite lookup_delete_eq.
Qed.

(** ** Validation before submission *)

Lemma email_classes_ascii :
  classes_within (fun c => is_ascii c = true) email_pattern.
Proof.
  unfold email_pattern, re_plus, re_atleast, chr. cbn [classes_within re_times].
  unfold email_local_class, email_domain_class, latin_class.
  split_and!; try done; intros c Hc; class_arith.
Qed.

(** An accepted email is plain ASCII once trimmed. *)
Lemma validate_email_ascii e :
  _validate_email e = true → forallb is_ascii (strip e) = true.
Proof.
  unfold _validate_email. destruct (str_truthy e); [|done]. simpl.
  intros (s0 & tail & -> & H0 & Ht)%re_match_spec.
  apply (matches_within _ _ _ email_classes_ascii) in H0.
  rewrite forallb_app. apply andb_true_iff. split.
  - apply forallb_forall. intros c Hc%list_elem_of_In.
    by apply (proj1 (Forall_forall _ _) H0).
  - by destruct Ht as [->| ->].
Qed.

(** Every message of [_validate_order_data] names the field at fault. *)
Lemma validate_order_data_messages s msg :
  _validate_order_data s = Some msg →
  msg ∈ [ u "Имя клиента должно содержать минимум 2 символа";
          u "Некорректный email адрес";
          u "Не выбрана услуга";
          u "Необходимо загрузить хотя бы один файл";
          u "Некорректный номер телефона";
          u "Не указаны параметры печати";
          u "Не указан параметр: material";
          u "Не указан параметр: quality";
          u "Не указан параметр: infill";
          u "Не выбран способ получения заказа";
          u "Не указан адрес доставки" ].
Proof.
  unfold _validate_order_data, required_specs. simpl List.find.
  repeat case_match; simplify_eq; intros [= <-]; vm_compute; in_keys.
Qed.

Lemma validate_order_data_truthy s msg :
  _validate_order_data s = Some msg → opt_truthy (Some msg) = true.
Proof.
  intros H%validate_order_data_messages. destruct msg; [|done].
  revert H. vm_compute. intros H.
  repeat (inversion H as [|? ? ? H']; subst; clear H; rename H' into H).
Qed.

Lemma validate_order_data_missing_infill s msg :
  _validate_order_data s = Some msg →
  specifications s !! u "infill" = None →
  is_Some (specifications s !! u "material") →
  is_Some (specifications s !! u "quality") →
  msg = u "Не указан параметр: infill"
  ∨ msg ∈ [ u "Имя клиента должно содержать минимум 2 символа";
            u "Некорректный email адрес";
            u "Не выбрана услуга";
            u "Необходимо загрузить хотя бы один файл";
            u "Некорректный номер телефона" ].
Proof.
  intros Hmsg Hinfill [m Hm] [q Hq]. revert Hmsg.
  unfold _validate_order_data, required_specs. simpl List.find.
  rewrite Hinfill, Hm, Hq.
  rewrite !(bool_decide_eq_false_2 (Some _ = None)) by done.
  rewrite (bool_decide_eq_true_2 (None = None)) by done.
  assert (Hne : dict_truthy (specifications s) = true).
  { unfold dict_truthy. apply negb_true_iff, Nat.eqb_neq.
    intros Hsz%map_size_empty_iff. by rewrite Hsz, lookup_empty in Hm. }
  rewrite Hne. simpl negb.
  repeat case_match; intros [= <-];
    first [ left; vm_compute; reflexivity | right; vm_compute; in_keys ].
Qed.

(** What a session that passes the validation holds. *)
Lemma validate_order_data_None s :
  _validate_order_data s = None →
  (∃ name, customer_name s = Some name ∧ 2 ≤ length (strip name))
  ∧ (∃ e, customer_email s = Some e ∧ _validate_email e = true)
  ∧ (∃ id, service_id s = Some id ∧ id ≠ 0%Z)
  ∧ files s ≠ []
  ∧ (∀ p, customer_phone s = Some p → _validate_phone p = true)
  ∧ (∀ k, k ∈ required_specs → is_Some (specifications s !! k))
  ∧ (∃ needed, delivery_needed s = Some needed
               ∧ (needed = true → opt_truthy (delivery_details s) = true)).
Proof.
  unfold _validate_order_data, required_specs. simpl List.find.
  repeat case_match; simplify_eq; try done; intros _.
  all: repeat match goal with
         | H : _ || _ = false |- _ => apply orb_false_iff in H as [? ?]
         | H : negb _ = false |- _ => apply negb_false_iff in H
         | H : bool_decide _ = false |- _ => apply bool_decide_eq_false in H
         end.
  all: split_and!.
  all: try (destruct (customer_name s) as [name|]; [|done];
            exists name; split; [done|]; by apply Nat.ltb_ge).
  all: try (destruct (customer_email s) as [e|]; [|done]; by exists e).
  all: try (destruct (service_id s) as [id|]; [|done]; exists id; split; [done|];
            simpl in *; by intros ->).
  all: try (by destruct (files s)).
  all: try (intros p Hp; rewrite Hp in *; simpl in *;
            destruct p; [done|]; simpl in *; by destruct (_validate_phone _)).
  all: try (intros k Hk; rewrite !elem_of_cons in Hk;
            destruct Hk as [->|[->|[->|Hk]]]; [..|by apply elem_of_nil in Hk];
            by apply not_eq_None_Some).
  all: try (eexists; split; [done|]; intros ->; simpl in *; by apply negb_false_iff).
  all: try (eexists; split; [done|]; done).
Qed.

(** ** Confirmation *)

(** Membership of a call in a short list of calls. *)
Ltac event_in H :=
  cbn [snd app] in H;
  repeat match type of H with
    | _ ∈ _ :: _ => apply elem_of_cons in H as [H|H]; [try discriminate H|]
    | _ ∈ [] => by apply elem_of_nil in H
    end.

(** C2.  When the validation of a session at CONFIRMATION fails,
    [confirm_order] hands the message of the failed check to the
    validation-error reply and does nothing else: the store, and with it the
    step and every attribute of the session, is the one it was given, and
    the order-creation API is not called.  The message is one of the eleven
    texts of the checks, each naming its field; if infill is the only
    specification missing, it is the text naming infill unless one of the
    earlier contact, service or file checks fails first. *)
Theorem confirm_order_validation_failure (notification_service : bool)
    (sessions : SessionManager) (uid : Z) (s : OrderSession)
    (create : outcome pyval) (msg : pystr) :
  sessions !! uid = Some s →
  step s = CONFIRMATION →
  _validate_order_data s = Some msg →
  confirm_order notification_service sessions uid create
  = (sessions, [HandleValidationError (u "order_data") (Some msg)])
  ∧ validation_error_text (u "order_data") (Some msg) = u "❌ " ++ msg
  ∧ msg ∈ [ u "Имя клиента должно содержать минимум 2 символа";
            u "Некорректный email адрес";
            u "Не выбрана услуга";
            u "Необходимо загрузить хотя бы один файл";
            u "Некорректный номер телефона";
            u "Не указаны параметры печати";
            u "Не указан параметр: material";
            u "Не указан параметр: quality";
            u "Не указан параметр: infill";
            u "Не выбран способ получения заказа";
            u "Не указан адрес доставки" ]
  ∧ (specifications s !! u "infill" = None →
     is_Some (specifications s !! u "material") →
     is_Some (specifications s !! u "quality") →
     msg = u "Не указан параметр: infill"
     ∨ msg ∈ [ u "Имя клиента должно содержать минимум 2 символа";
               u "Некорректный email адрес";
               u "Не выбрана услуга";
               u "Необходимо загрузить хотя бы один файл";
               u "Некорректный номер телефона" ])
  ∧ (∀ order_data,
       CreateOrder order_data
       ∉ (confirm_order notification_service sessions uid create).2)
  ∧ (confirm_order notification_service sessions uid create).1 !! uid = Some s.
Proof.
  intros Hs Hstep Hmsg.
  assert (Hrun : confirm_order notification_service sessions uid create
                 = (sessions, [HandleValidationError (u "order_data") (Some msg)])).
  { unfold confirm_order, at_step. rewrite Hs, Hstep. simpl bool_decide. cbv iota.
    rewrite Hmsg. by rewrite (validate_order_data_truthy s msg Hmsg). }
  rewrite Hrun. split_and!.
  - done.
  - unfold validation_error_text.
    by rewrite (validate_order_data_truthy s msg Hmsg).
  - by apply (validate_order_data_messages s).
  - by apply (validate_order_data_missing_infill s).
  - intros order_data Hin. event_in Hin.
  - done.
Qed.

Lemma reachable_run `{UnicodeCase} trace : ∀ sessions,
  reachable sessions → reachable (run sessions trace).
Proof.
  induction trace as [|[uid a] trace IH]; intros sessions Hr; simpl; [done|].
  apply IH. by constructor.
Qed.

(** C3: the claim as stated fails.  After "start order" and then "back to
    confirmation", the session of user 1 is at CONFIRMATION and has no
    customer name. *)
Lemma confirmation_invariant_not_maintained :
  ¬ (∀ (U : UnicodeCase) (sessions : SessionManager),
       reachable sessions →
       ∀ uid s, sessions !! uid = Some s → step s = CONFIRMATION →
                confirmation_invariant s).
Proof.
  intros H.
  pose (trace := [ (1%Z, StartOrder 0 (Returns [example_service]));
                   (1%Z, BackToConfirmation) ]).
  destruct (H caseless (run ∅ trace) (reachable_run trace ∅ reachable_empty) 1%Z
              (set_step CONFIRMATION (set_step SERVICE_SELECTION (new_session 1 0))))
    as [Hname _].
  - vm_compute. reflexivity.
  - reflexivity.
  - by apply Hname.
Qed.

(** C3 (as amended).  The condition is enforced when the order is submitted:
    whenever [confirm_order] calls the order-creation API, the session of
    that user is at CONFIRMATION and has a customer name, a valid email, at
    least one file, the three specification keys, a delivery choice and,
    unless the choice is pickup, delivery details; the payload sent is the
    one assembled from that session. *)
Theorem confirm_order_submits_valid_session (notification_service : bool)
    (sessions : SessionManager) (uid : Z) (create : outcome pyval)
    (order_data : gmap pystr pyval) :
  CreateOrder order_data
  ∈ (confirm_order notification_service sessions uid create).2 →
  ∃ s, sessions !! uid = Some s
       ∧ step s = CONFIRMATION
       ∧ confirmation_invariant s
       ∧ order_data = to_order_data s.
Proof.
  unfold confirm_order, at_step.
  destruct (sessions !! uid) as [s|] eqn:Hs; [|intros Hin; event_in Hin].
  case_bool_decide as Hstep; [|intros Hin; event_in Hin].
  destruct (_validate_order_data s) as [msg|] eqn:Hv.
  { rewrite (validate_order_data_truthy s msg Hv). intros Hin. event_in Hin. }
  cbn [opt_truthy]. destruct (is_complete s); cbn [negb];
    [|intros Hin; event_in Hin].
  intros Hin. exists s. split_and!; [done..| |].
  - apply validate_order_data_None in Hv
      as ((name & Hn & _) & He & _ & Hf & _ & Hk & needed & Hd & Hdd).
    unfold confirmation_invariant. rewrite Hn, Hd. split_and!; try done.
    destruct needed; [right|by left].
    specialize (Hdd eq_refl). by destruct (delivery_details s).
  - repeat case_match; event_in Hin; try by injection Hin.
    all: destruct notification_service; event_in Hin.
Qed.

(** ** What the handlers do to the stored email *)

(** Unfolds a handler down to the store operations. *)
Ltac unfold_handler :=
  unfold handle, start_order_process, handle_service_selection,
    handle_contact_name, handle_contact_email, handle_contact_phone,
    skip_phone_step, handle_file_upload, continue_with_files,
    handle_material_selection, handle_quality_selection,
    handle_infill_selection, handle_delivery_pickup, handle_delivery_shipping,
    handle_delivery_address, show_edit_menu, confirm_order, cancel_order,
    back_to_services, back_to_contacts, back_to_files, back_to_specs,
    back_to_delivery, back_to_confirmation, remove_last_file, back_to_material,
    back_to_quality, handle_material_selection, at_step, go_to, create_session
    in *.

Section StoredEmail.
Context `{UnicodeCase}.

(** After any action, a session either keeps the email it had, has none, or
    has the trimmed, lower-cased form of an accepted input. *)
Lemma handle_email_frame sessions uid a u' s' :
  (handle sessions uid a).1 !! u' = Some s' →
  (∃ s, sessions !! u' = Some s ∧ customer_email s' = customer_email s)
  ∨ customer_email s' = None
  ∨ (∃ email, _validate_email email = true
              ∧ customer_email s' = Some (lower (strip email))).
Proof.
  destruct a; unfold_handler; cbv zeta; cbn [fst snd];
    repeat (first [rewrite lookup_insert_eq | case_match]; cbn [fst snd];
            simplify_eq);
    rewrite ?clear_session_fst;
    intros Hs';
    repeat match type of Hs' with
      | <[_ := _]> _ !! _ = Some _ =>
          apply lookup_insert_Some in Hs' as [[<- <-]|[? Hs']]
      | delete _ _ !! _ = Some _ =>
          apply lookup_delete_Some in Hs' as [? Hs']
      end;
    cbn [customer_email set_step set_customer_email set_service_id
         set_service_name set_customer_name set_customer_phone set_files
         set_specifications set_delivery_needed set_delivery_details set_spec
         pop_spec new_session]; eauto.
  right; right. eexists. split; [|done]. by apply negb_false_iff.
Qed.

Lemma lower_strip_lowercase email :
  _validate_email email = true →
  lower (strip email) = map lower_ascii (strip email)
  ∧ lowercase_text (lower (strip email)).
Proof.
  intros Hv%validate_email_ascii.
  rewrite (lower_ascii_text _ Hv). split; [done|]. split.
  - apply Forall_forall. intros c (c0 & -> & Hc0)%list_elem_of_fmap.
    split; [|apply lower_ascii_not_upper].
    apply lower_ascii_ascii. rewrite forallb_forall in Hv.
    by apply Hv, list_elem_of_In.
  - rewrite lower_ascii_text.
    + rewrite <- list_fmap_compose. apply list_fmap_ext.
      intros ? c _. apply lower_ascii_idem.
    + apply forallb_forall.
      intros c (c0 & -> & Hc0)%list_elem_of_In%list_elem_of_fmap.
      apply lower_ascii_ascii. rewrite forallb_forall in Hv.
      by apply Hv, list_elem_of_In.
Qed.

Lemma reachable_email_lowercase sessions :
  reachable sessions →
  ∀ uid s e, sessions !! uid = Some s → customer_email s = Some e →
             lowercase_text e.
Proof.
  induction 1 as [|sessions uid a Hr IH]; intros u' s' e Hs' He.
  - by rewrite lookup_empty in Hs'.
  - apply handle_email_frame in Hs' as [(s & Hs & Heq)|[Hn|(email & Hv & Heq)]].
    + apply (IH u' s e Hs). congruence.
    + congruence.
    + rewrite Heq in He. injection He as <-. by apply lower_strip_lowercase.
Qed.

(** C10.  An email accepted at CONTACT_INFO is stored trimmed and with every
    character lower-cased.  Hence in every store that the workflow can
    reach, the email of a session is fully lowercase, and so are the
    customer_email and customer_contact entries of its payload. *)
Theorem stored_email_is_lowercase :
  (∀ (sessions : SessionManager) uid s email,
     sessions !! uid = Some s → step s = CONTACT_INFO →
     _validate_email email = true →
     (handle_contact_email sessions uid email).1
     = <[uid := set_customer_email (Some (lower (strip email))) s]> sessions
     ∧ lower (strip email) = map lower_ascii (strip email)
     ∧ lowercase_text (lower (strip email)))
  ∧ (∀ sessions : SessionManager, reachable sessions →
     ∀ uid s e, sessions !! uid = Some s → customer_email s = Some e →
       lowercase_text e
       ∧ to_order_data s !! u "customer_email" = Some (VStr e)
       ∧ to_order_data s !! u "customer_contact" = Some (VStr e)).
Proof.
  split.
  - intros sessions uid s email Hs Hstep Hv.
    unfold handle_contact_email, at_step. rewrite Hs, Hstep, Hv.
    rewrite bool_decide_eq_true_2 by done. cbn [negb fst].
    split; [done|]. by apply lower_strip_lowercase.
  - intros sessions Hr uid s e Hs He. split.
    + by apply (reachable_email_lowercase sessions Hr uid s).
    + destruct (to_order_data_email s) as [Hmail Hcontact].
      by rewrite Hmail, Hcontact, He.
Qed.

End StoredEmail.

(** ** File upload *)

(** C6: the claim as stated fails.  [handle_file_upload] does not read the
    settings: with the allow-list ".stl" and a maximum of 10 MB configured,
    the 20 MB file "part.obj" is still appended to the files of user 1. *)
Lemma handle_file_upload_ignores_settings :
  ¬ (∀ (U : UnicodeCase) (settings : Settings) (sessions : SessionManager)
       uid s file download upload s',
       sessions !! uid = Some s → step s = FILE_UPLOAD →
       (handle_file_upload sessions uid (Some file) download upload).1 !! uid
       = Some s' →
       files s' ≠ files s →
       spec_upload_allowed settings file = true).
Proof.
  intros H.
  pose (settings := {| max_file_size_mb := 10; allowed_file_extensions := u ".stl" |}).
  pose (file := {| file_name := Some (u "part.obj"); file_size := Some 20971520%Z;
                   file_id := u "file-2"; mime_type := None |}).
  pose (s := set_step FILE_UPLOAD (new_session 1 0)).
  pose (info := VDict (<[u "upload_result" := VDict ∅]>
                         (<[u "telegram_file_id" := VStr (u "file-2")]>
                            (<[u "size" := VInt 20971520]>
                               (<[u "filename" := VStr (u "part.obj")]> ∅))))).
  assert (Hno : @spec_upload_allowed caseless settings file = false)
    by (vm_compute; reflexivity).
  assert (Hyes : @spec_upload_allowed caseless settings file = true).
  { apply (H caseless settings (<[1%Z := s]> ∅) 1%Z s file (Returns tt)
             (Returns (VDict ∅)) (set_files [info] s)).
    - apply lookup_insert_eq.
    - reflexivity.
    - vm_compute. reflexivity.
    - discriminate. }
  rewrite Hno in Hyes. discriminate.
Qed.

Section Upload.
Context `{UnicodeCase}.

(** C6 (as amended).  At FILE_UPLOAD a received file is appended to the
    files of the session only if its lower-cased name ends with one of the
    extensions fixed in the handler (.stl, .obj, .3mf) and its size is not
    above the 50 MB fixed in the handler, and then the upload API was
    called; these are the extensions and the maximum that the settings have
    by default, and the handler does not consult the settings.  A file whose
    extension is not one of the three leaves the store as it was (so the
    files and the step too), no upload call is made, and the reply is the
    invalid-format error. *)
Theorem handle_file_upload_spec (sessions : SessionManager) (uid : Z)
    (s : OrderSession) (document : option Document) (download : outcome unit)
    (upload : outcome pyval) :
  sessions !! uid = Some s →
  step s = FILE_UPLOAD →
  let r := handle_file_upload sessions uid document download upload in
  (r.1 = sessions
   ∨ ∃ file name info,
       document = Some file ∧ file_name file = Some name
       ∧ endswith_any (lower name) supported_formats = true
       ∧ (∀ size, file_size file = Some size → (size ≤ max_upload_size)%Z)
       ∧ UploadFile name (mime_type file) ∈ r.2
       ∧ r.1 = <[uid := set_files (files s ++ [info]) s]> sessions)
  ∧ (∀ file name,
       document = Some file → file_name file = Some name →
       endswith_any (lower name) supported_formats = false →
       r.1 = sessions
       ∧ (∀ n ct, UploadFile n ct ∉ r.2)
       ∧ (name ≠ [] → r.2 = [HandleFileError (u "invalid_format") (Some name)]))
  ∧ supported_formats = allowed_extensions_list default_settings
  ∧ max_upload_size = (max_file_size_mb default_settings * 1024 * 1024)%Z.
Proof.
  intros Hs Hstep. cbv zeta. unfold handle_file_upload, at_step.
  rewrite Hs, Hstep. rewrite bool_decide_eq_true_2 by done.
  split_and!; [| |by vm_compute..].
  - destruct document as [file|]; [|by left].
    destruct (file_name file) as [name|] eqn:Hname; [|by left].
    cbn [opt_truthy default from_option id].
    destruct (str_truthy name); cbn [negb]; [|by left].
    destruct (endswith_any (lower name) supported_formats) eqn:Hext;
      cbn [negb]; [|by left].
    destruct (py_truthy (of_opt_int (file_size file))
              && (max_upload_size <? default 0 (file_size file))%Z) eqn:Hsize;
      [by left|].
    destruct download; [|by left..]. destruct upload; [|by left..].
    right. eexists file, name, _. split_and!; try done.
    + intros size Hsz. rewrite Hsz in Hsize. cbn in Hsize.
      apply andb_false_iff in Hsize as [Hz|Hlt].
      * apply negb_false_iff, Z.eqb_eq in Hz. subst. by vm_compute.
      * by apply Z.ltb_ge.
    + cbn [snd]. in_keys.
  - intros file name -> Hname Hext. rewrite Hname. cbn [opt_truthy default from_option id].
    destruct name as [|c name]; cbn [str_truthy negb].
    + split_and!; [done| |done]. intros n ct Hin. event_in Hin.
    + rewrite Hext. cbn [negb]. split_and!; [done| |done].
      intros n ct Hin. event_in Hin.
Qed.
End Upload.

(** ** Backward navigation *)

Lemma set_specifications_id s : set_specifications (specifications s) s = s.
Proof. by destruct s. Qed.


(** ** The theorems at work on the worked order *)

(** The email "  Jane.Doe@Example.COM " is stored and sent as
    "jane.doe@example.com". *)
Lemma stored_email_is_lowercase_witness :
  let sessions := @run caseless ∅ [ (1%Z, StartOrder 0 (Returns [example_service]));
                                     (1%Z, SelectService 1 (Returns [example_service]));
                                     (1%Z, ContactName (u "Jane Doe"));
                                     (1%Z, ContactEmail (u "  Jane.Doe@Example.COM ")) ] in
  ∃ s, sessions !! 1%Z = Some s
       ∧ customer_email s = Some (u "jane.doe@example.com")
       ∧ to_order_data s !! u "customer_contact" = Some (VStr (u "jane.doe@example.com")).
Proof.
  cbv zeta.
  match goal with
  | |- ∃ s, ?m !! ?k = _ ∧ _ =>
      let o := eval vm_compute in (m !! k) in
      match o with
      | Some ?x =>
          exists x; split; [vm_compute; reflexivity|]; split; [vm_compute; reflexivity|];
          refine (proj2 (proj2 (proj2 (@stored_email_is_lowercase caseless) m
                     (reachable_run _ ∅ reachable_empty) k x
                     (u "jane.doe@example.com") _ _)));
          vm_compute; reflexivity
      end
  end.
Defined.

(** The order is complete, then the old "change quality" button removes
    infill: the confirmation is refused with the message naming infill. *)
Lemma confirm_order_validation_failure_witness :
  let sessions :=
    @run caseless ∅ (order_until_confirmation ++ [(1%Z, BackToQuality)]) in
  confirm_order false sessions 1 (Returns (VDict ∅))
  = (sessions,
     [HandleValidationError (u "order_data") (Some (u "Не указан параметр: infill"))]).
Proof.
  cbv zeta.
  match goal with
  | |- confirm_order _ ?m ?k _ = _ =>
      let o := eval vm_compute in (m !! k) in
      match o with
      | Some ?x =>
          refine (proj1 (confirm_order_validation_failure false m k x
                           (Returns (VDict ∅)) _ _ _ _));
          vm_compute; reflexivity
      end
  end.
Defined.

(** The complete order of the worked example is submitted; its session
    meets the condition. *)
Lemma confirm_order_submits_valid_session_witness :
  let sessions := @run caseless ∅ order_until_confirmation in
  ∃ s, sessions !! 1%Z = Some s ∧ step s = CONFIRMATION ∧ confirmation_invariant s
       ∧ customer_name s = Some (u "Jane Doe")
       ∧ to_order_data s !! u "delivery_needed" = Some (VStr (u "false"))
       ∧ to_order_data s !! u "delivery_details" = None.
Proof.
  cbv zeta.
  set (m := @run caseless ∅ order_until_confirmation).
  set (od := default ∅ (to_order_data <$> m !! 1%Z)).
  assert (Hev : (confirm_order false m 1 (Returns (VDict ∅))).2
                = [Reply ProcessingOrder; CreateOrder od; Reply OrderCreated])
    by (vm_compute; reflexivity).
  destruct (confirm_order_submits_valid_session false m 1 (Returns (VDict ∅)) od)
    as (s & Hs & Hstep & Hinv & _).
  { rewrite Hev. apply list_elem_of_further, list_elem_of_here. }
  assert (Hname : (customer_name <$> m !! 1%Z) = Some (Some (u "Jane Doe")))
    by (vm_compute; reflexivity).
  assert (Hneeded : ((fun s => to_order_data s !! u "delivery_needed") <$> m !! 1%Z)
                    = Some (Some (VStr (u "false"))))
    by (vm_compute; reflexivity).
  assert (Hdetails : ((fun s => to_order_data s !! u "delivery_details") <$> m !! 1%Z)
                     = Some None)
    by (vm_compute; reflexivity).
  rewrite Hs in Hname, Hneeded, Hdetails.
  exists s. split_and!; [exact Hs | exact Hstep | exact Hinv | ..].
  - by injection Hname.
  - by injection Hneeded.
  - by injection Hdetails.
Defined.

(** "design.txt" is refused: no upload, no file stored, still at
    FILE_UPLOAD. *)
Lemma handle_file_upload_spec_witness :
  let sessions := @run caseless ∅ order_until_files in
  @handle_file_upload caseless sessions 1
    (Some (example_document (u "design.txt"))) (Returns tt) (Returns (VDict ∅))
  = (sessions, [HandleFileError (u "invalid_format") (Some (u "design.txt"))])
  ∧ (files <$> sessions !! 1%Z) = Some []
  ∧ (step <$> sessions !! 1%Z) = Some FILE_UPLOAD.
Proof.
  cbv zeta. split; [|by vm_compute].
  match goal with
  | |- handle_file_upload ?m ?k ?d ?dl ?up = _ =>
      let o := eval vm_compute in (m !! k) in
      match o with
      | Some ?x =>
          destruct (proj1 (proj2 (@handle_file_upload_spec caseless m k x d dl up
                                    ltac:(vm_compute; reflexivity)
                                    ltac:(vm_compute; reflexivity)))
                      (example_document (u "design.txt")) (u "design.txt")
                      eq_refl eq_refl ltac:(vm_compute; reflexivity))
            as (H1 & _ & H2)
      end
  end.
  apply injective_projections; [exact H1 | apply H2; discriminate].
Defined.


(* ===================================================================== *)
(** * Part III: further properties of the code                            *)
(* ===================================================================== *)

(** ** Trimming *)

Lemma lstrip_no_blank s :
  match s with [] => True | c :: _ => is_space c = false end → lstrip s = s.
Proof. destruct s as [|c s]; [done|]. intros H. simpl. by rewrite H. Qed.

Lemma lstrip_head_ok s :
  match lstrip s with [] => True | c :: _ => is_space c = false end.
Proof.
  destruct (lstrip s) as [|c t] eqn:H; [done|]. by apply lstrip_head in H.
Qed.

Lemma lstrip_idem s : lstrip (lstrip s) = lstrip s.
Proof. apply lstrip_no_blank, lstrip_head_ok. Qed.

Lemma rstrip_idem s : rstrip (rstrip s) = rstrip s.
Proof. unfold rstrip. by rewrite rev_involutive, lstrip_idem. Qed.

Lemma rstrip_head_ok s :
  match s with [] => True | c :: _ => is_space c = false end →
  match rstrip s with [] => True | c :: _ => is_space c = false end.
Proof.
  destruct (rstrip_spec s) as (q & Hs & _).
  destruct (rstrip s) as [|c t]; [done|]. rewrite Hs. done.
Qed.

Lemma strip_head_ok s :
  match strip s with [] => True | c :: _ => is_space c = false end.
Proof. apply rstrip_head_ok, lstrip_head_ok. Qed.

Lemma strip_idem s : strip (strip s) = strip s.
Proof.
  unfold strip at 1. rewrite (lstrip_no_blank _ (strip_head_ok s)).
  unfold strip. apply rstrip_idem.
Qed.

(** A text is its own [strip()] when it neither starts nor ends with a blank. *)
Lemma strip_fixed s :
  strip s = s
  ↔ match s with [] => True | c :: _ => is_space c = false end
    ∧ match rev s with [] => True | c :: _ => is_space c = false end.
Proof.
  split.
  - intros H. split.
    + rewrite <- H. apply strip_head_ok.
    + rewrite <- H. unfold strip, rstrip. rewrite rev_involutive.
      apply lstrip_head_ok.
  - intros [Hh Ht]. unfold strip. rewrite (lstrip_no_blank _ Hh).
    unfold rstrip. rewrite (lstrip_no_blank _ Ht). apply rev_involutive.
Qed.

(** ** The validators and the blanks around a text *)

Lemma validate_name_strip s : _validate_name (strip s) = _validate_name s.
Proof.
  apply eq_true_iff_eq. rewrite !validate_name_iff. by rewrite strip_idem.
Qed.

Lemma validate_email_strip s : _validate_email (strip s) = _validate_email s.
Proof.
  unfold _validate_email. rewrite strip_idem.
  destruct s as [|c s]; [done|].
  destruct (strip (c :: s)) as [|c' t] eqn:Hs; [|done].
  simpl. done.
Qed.

(** What [_validate_phone] deletes includes every blank. *)
Lemma phone_cleaned_app s t : phone_cleaned (s ++ t) = phone_cleaned s ++ phone_cleaned t.
Proof. unfold phone_cleaned, re_sub_delete. apply filter_app. Qed.

Lemma phone_cleaned_blank p :
  forallb is_space p = true → phone_cleaned p = [].
Proof.
  rewrite phone_cleaned_filter.
  induction p as [|c p IH]; [done|]. simpl. rewrite andb_true_iff. intros [Hc Hp].
  rewrite filter_cons. destruct (decide _) as [Hk|_]; [exfalso|by apply IH].
  apply orb_true_iff in Hk as [Hd|H43].
  - apply decimal_not_space in Hd. congruence.
  - apply N.eqb_eq in H43. subst. done.
Qed.

Lemma phone_cleaned_strip s : phone_cleaned (strip s) = phone_cleaned s.
Proof.
  destruct (strip_spec s) as (p & q & Hs & Hp & Hq).
  rewrite Hs at 2. rewrite !phone_cleaned_app.
  by rewrite (phone_cleaned_blank p Hp), (phone_cleaned_blank q Hq), app_nil_r.
Qed.

Lemma stored_phone_valid p :
  p ≠ [] → _validate_phone p = true →
  strip p ≠ [] ∧ _validate_phone (strip p) = true.
Proof.
  intros Hp Hv.
  assert (Hm : re_match phone_pattern (phone_cleaned p) = true).
  { unfold _validate_phone in Hv. by destruct p. }
  assert (Hne : strip p ≠ []).
  { intros Hs. rewrite <- phone_cleaned_strip, Hs in Hm. by vm_compute in Hm. }
  split; [done|]. unfold _validate_phone.
  destruct (strip p) eqn:Hs; [done|]. cbn [str_truthy negb].
  by rewrite <- Hs, phone_cleaned_strip.
Qed.

(** X1.  The validators look through the blanks around a text: a name and an
    email get the verdict of their trimmed form, whether the caller trims
    or not; so does a phone number, unless it is nothing but blanks -- a
    blank text is refused where the empty text is accepted as "no
    phone". *)
Theorem validators_ignore_padding :
  (∀ s, _validate_name (strip s) = _validate_name s)
  ∧ (∀ s, _validate_email (strip s) = _validate_email s)
  ∧ (∀ s, _validate_phone (strip s)
          = if bool_decide (s ≠ [] ∧ strip s = []) then true else _validate_phone s)
  ∧ (∀ s, s ≠ [] ∧ strip s = [] ↔ _validate_phone s = false ∧ strip s = []).
Proof.
  split_and!.
  - apply validate_name_strip.
  - apply validate_email_strip.
  - intros s. case_bool_decide as Hb.
    + destruct Hb as [_ ->]. done.
    + unfold _validate_phone. rewrite phone_cleaned_strip.
      destruct s as [|c s]; [done|].
      destruct (strip (c :: s)) eqn:Hs; [|done].
      exfalso. apply Hb. by split.
  - intros s. split.
    + intros [Hne Hs]. split; [|done].
      destruct (_validate_phone s) eqn:Hv; [|done].
      by destruct (stored_phone_valid s Hne Hv).
    + intros [Hv Hs]. split; [|done]. by intros ->.
Qed.

(** ** The shape of an accepted email *)

Lemma email_match t :
  re_match email_pattern t = true
  ↔ ∃ loc dom tld tail,
      t = loc ++ [64%N] ++ dom ++ [46%N] ++ tld ++ tail
      ∧ loc ≠ [] ∧ forallb email_local_class loc = true
      ∧ dom ≠ [] ∧ forallb email_domain_class dom = true
      ∧ 2 ≤ length tld ∧ forallb latin_class tld = true
      ∧ (tail = [] ∨ tail = [10%N]).
Proof.
  rewrite re_match_spec. unfold email_pattern. split.
  - intros (s0 & tail & -> & H0 & Ht).
    apply matches_cat in H0 as (loc & s1 & -> & Hloc & H1).
    apply matches_cat in H1 as (at_ & s2 & -> & Hat & H2).
    apply matches_cat in H2 as (dom & s3 & -> & Hdom & H3).
    apply matches_cat in H3 as (dot & tld & -> & Hdot & Htld).
    apply matches_plus_sym in Hloc as [? ?]. apply matches_plus_sym in Hdom as [? ?].
    apply matches_chr in Hat as ->. apply matches_chr in Hdot as ->.
    apply matches_atleast_sym in Htld as [? ?].
    exists loc, dom, tld, tail. split_and!; try done.
    by rewrite <- !app_assoc.
  - intros (loc & dom & tld & tail & -> & ? & ? & ? & ? & ? & ? & Ht).
    exists (loc ++ [64%N] ++ dom ++ [46%N] ++ tld), tail.
    split_and!; [by rewrite <- !app_assoc| |done].
    apply matches_cat. exists loc, ([64%N] ++ dom ++ [46%N] ++ tld).
    split_and!; [done | by apply matches_plus_sym |].
    apply matches_cat. exists [64%N], (dom ++ [46%N] ++ tld).
    split_and!; [done | by apply matches_chr |].
    apply matches_cat. exists dom, ([46%N] ++ tld).
    split_and!; [done | by apply matches_plus_sym |].
    apply matches_cat. exists [46%N], tld.
    split_and!; [done | by apply matches_chr | by apply matches_atleast_sym].
Qed.

Lemma validate_email_iff e :
  _validate_email e = true
  ↔ ∃ loc dom tld,
      strip e = loc ++ [64%N] ++ dom ++ [46%N] ++ tld
      ∧ loc ≠ [] ∧ forallb email_local_class loc = true
      ∧ dom ≠ [] ∧ forallb email_domain_class dom = true
      ∧ 2 ≤ length tld ∧ forallb latin_class tld = true.
Proof.
  unfold _validate_email. split.
  - destruct (str_truthy e); [|done]. cbn [negb].
    intros (loc & dom & tld & tail & Hs & ? & ? & ? & ? & ? & ? & Ht)%email_match.
    exists loc, dom, tld. split_and!; try done.
    destruct Ht as [->| ->]; [by rewrite app_nil_r in Hs|].
    exfalso. rewrite !app_assoc in Hs. by apply strip_last in Hs.
  - intros (loc & dom & tld & Hs & ? & ? & ? & ? & ? & ?).
    destruct e as [|c e]; [by destruct loc|]. cbn [str_truthy negb].
    apply email_match. exists loc, dom, tld, []. rewrite app_nil_r.
    split_and!; try done. by left.
Qed.

(** The classes of the email pattern are closed under ASCII lower-casing,
    which makes no blank. *)
Lemma is_space_lower_ascii c : is_space (lower_ascii c) = is_space c.
Proof.
  unfold lower_ascii. destruct (in_range 65 90 c) eqn:Hc; [|done].
  apply in_range_spec in Hc.
  transitivity false; [|symmetry]; class_arith.
Qed.

Lemma class_lower_ascii c :
  (email_local_class c = true → email_local_class (lower_ascii c) = true)
  ∧ (email_domain_class c = true → email_domain_class (lower_ascii c) = true)
  ∧ (latin_class c = true → latin_class (lower_ascii c) = true).
Proof.
  unfold lower_ascii. destruct (in_range 65 90 c) eqn:Hc; [|done].
  apply in_range_spec in Hc.
  unfold email_local_class, email_domain_class, latin_class, in_range.
  split_and!; intros _; rewrite !orb_true_iff, !andb_true_iff, !N.leb_le; lia.
Qed.

Lemma forallb_map_lower (P : N → bool) l :
  (∀ c, P c = true → P (lower_ascii c) = true) →
  forallb P l = true → forallb P (map lower_ascii l) = true.
Proof.
  intros HP. rewrite !forallb_forall. intros H c (c0 & <- & Hc0)%in_map_iff. auto.
Qed.

Lemma strip_map_lower s : strip s = s → strip (map lower_ascii s) = map lower_ascii s.
Proof.
  rewrite !strip_fixed. intros [Hh Ht]. split.
  - destruct s; [done|]. simpl. by rewrite is_space_lower_ascii.
  - rewrite <- map_rev. destruct (rev s); [done|]. simpl.
    by rewrite is_space_lower_ascii.
Qed.

(** The email as [handle_contact_email] stores it is accepted again. *)
Lemma stored_email_valid `{UnicodeCase} e :
  _validate_email e = true → _validate_email (lower (strip e)) = true.
Proof.
  intros Hv. pose proof (validate_email_ascii e Hv) as Hascii.
  rewrite (lower_ascii_text _ Hascii).
  apply validate_email_iff in Hv
    as (loc & dom & tld & Hs & ? & ? & ? & ? & ? & ?).
  apply validate_email_iff.
  rewrite strip_map_lower by apply strip_idem. rewrite Hs.
  exists (map lower_ascii loc), (map lower_ascii dom), (map lower_ascii tld).
  rewrite !map_app. split_and!; try done.
  - by destruct loc.
  - apply forallb_map_lower; [apply class_lower_ascii | done].
  - by destruct dom.
  - apply forallb_map_lower; [apply class_lower_ascii | done].
  - by rewrite length_map.
  - apply forallb_map_lower; [apply class_lower_ascii | done].
Qed.



(** X2.  [_validate_email] accepts a text exactly when its trimmed form is
    local@domain.tld: a non-empty local part of ASCII letters, digits and
    [._%+-], one at sign, a non-empty domain of ASCII letters, digits, dots
    and hyphens, a dot, and at least two ASCII letters -- with nothing after
    them, not even the line feed that [$] would let through, since the
    text is trimmed first.  What [handle_contact_email] stores for an
    accepted text (trimmed and lower-cased) is accepted again. *)
Theorem validate_email_shape :
  (∀ e, _validate_email e = true
        ↔ ∃ loc dom tld,
            strip e = loc ++ [64%N] ++ dom ++ [46%N] ++ tld
            ∧ loc ≠ [] ∧ forallb email_local_class loc = true
            ∧ dom ≠ [] ∧ forallb email_domain_class dom = true
            ∧ 2 ≤ length tld ∧ forallb latin_class tld = true)
  ∧ (∀ (H : UnicodeCase) e,
       _validate_email e = true → _validate_email (lower (strip e)) = true).
Proof.
  split; [apply validate_email_iff | intros H e; apply stored_email_valid].
Qed.

(** ** What a handler writes *)

Section Writes.
Context `{UnicodeCase}.

Lemma set_spec_same k s :
  py_truthy (dict_get (specifications s) k) = true →
  set_spec k (dict_get (specifications s) k) s = s.
Proof.
  unfold set_spec, dict_get. destruct (specifications s !! k) as [v|] eqn:Hv; [|done].
  intros _. cbn [default from_option id]. rewrite (insert_id _ _ _ Hv).
  apply set_specifications_id.
Qed.

Lemma back_to_quality_store sessions uid :
  (back_to_quality sessions uid).1
  = match sessions !! uid with
    | Some s =>
        if py_truthy (dict_get (specifications s) (u "material"))
        then <[uid := pop_spec (u "infill") s]> sessions
        else sessions
    | None => sessions
    end.
Proof.
  unfold back_to_quality. destruct (sessions !! uid) as [s|] eqn:Hs; [|done].
  destruct (py_truthy (dict_get (specifications s) (u "material"))) eqn:Hm; [|done].
  unfold handle_material_selection, at_step. cbv zeta. rewrite lookup_insert_eq.
  case_bool_decide; cbn [fst]; [|done].
  rewrite insert_insert_eq. f_equal. apply set_spec_same.
  revert Hm. unfold pop_spec, dict_get. cbn [specifications set_specifications].
  by rewrite lookup_delete_ne by key_ne.
Qed.

(** Whatever a handler leaves in the store was there before, or is one of
    the writes on the session of the acting user. *)
Lemma handle_writes sessions uid a u' s' :
  (handle sessions uid a).1 !! u' = Some s' →
  sessions !! u' = Some s'
  ∨ (u' = uid ∧ session_write uid (sessions !! uid) s').
Proof.
  destruct a; cbn [handle]; try rewrite back_to_quality_store;
    unfold_handler; cbv zeta; cbn [fst snd];
    repeat (first [rewrite lookup_insert_eq | case_match]; cbn [fst snd];
            simplify_eq);
    rewrite ?clear_session_fst;
    intros Hs';
    repeat match type of Hs' with
      | <[_ := _]> _ !! _ = Some _ =>
          apply lookup_insert_Some in Hs' as [[<- <-]|[? Hs']]
      | delete _ _ !! _ = Some _ =>
          apply lookup_delete_Some in Hs' as [? Hs']
      end;
    try (by left); try done; right; (split; [done|]);
    repeat match goal with
      | H : bool_decide _ = true |- _ => apply bool_decide_eq_true in H
      | H : negb _ = false |- _ => apply negb_false_iff in H
      | H : negb _ = true |- _ => apply negb_true_iff in H
      | H : ?m !! ?k = Some _ |- context [?m !! ?k] => rewrite H
      end.
  all: try (econstructor; eauto; done).
  - match goal with
    | Hp : _ && negb (_validate_phone ?p) = false,
      Ht : str_truthy ?p = true |- _ =>
        cbn [andb] in Hp; apply negb_false_iff in Hp;
        constructor; [done| |done]; by intros ->
    end.
  - match goal with
    | |- session_write _ (Some ?s) (set_files (_ ++ [VDict (<[_ := ?r]> _)]) _) =>
        match goal with
        | Hn : opt_truthy (file_name ?d) = true,
          He : endswith_any _ _ = true, Hz : _ && _ = false |- _ =>
            apply (write_file uid s d r); [done|];
            unfold upload_accepted; rewrite Hn, He, Hz; done
        end
    end.
  - constructor; [done|]. by apply Nat.ltb_ge.
  - constructor. match goal with |- files ?s ≠ [] => by destruct (files s) end.
Qed.

Lemma Forall_removelast {A} (P : A → Prop) l : Forall P l → Forall P (removelast l).
Proof.
  induction 1 as [|x l Hx Hl IH]; [constructor|]. simpl.
  destruct l; [constructor|]. by constructor.
Qed.

Lemma session_write_ok uid old new :
  (∀ s, old = Some s → stored_ok uid s) →
  session_write uid old new → stored_ok uid new.
Proof.
  intros Hold Hw.
  destruct Hw;
    try (specialize (Hold _ eq_refl);
         destruct Hold as (Hid & [Hs1 Hs2] & Hn & He & Hp & Hd & Hf & Hk));
    unfold stored_ok, set_spec, pop_spec;
    cbn [user_id step customer_name customer_email customer_phone
         delivery_details files specifications new_session
         set_step set_service_id set_service_name set_customer_name
         set_customer_email set_customer_phone set_files set_specifications
         set_delivery_needed set_delivery_details];
    split_and!; try done; try congruence.
  - intros n [= <-]. split; [by rewrite validate_name_strip | apply strip_idem].
  - intros e [= <-]. by apply stored_email_valid.
  - intros p [= <-]. destruct (stored_phone_valid phone) as [? ?]; [done..|].
    split_and!; [done..|apply strip_idem].
  - apply Forall_app. split; [done|]. constructor; [|constructor]. eauto.
  - by apply Forall_removelast.
  - intros k v [[<- <-]|[? Hkv]]%lookup_insert_Some; [|by apply Hk].
    split; [|by eexists].
    unfold required_specs.
    match goal with Hkey : _ ∨ _ |- _ => destruct Hkey as [->| ->]; in_keys end.
  - intros k v [[<- <-]|[? Hkv]]%lookup_insert_Some; [|by apply Hk].
    split; [|by eexists]. unfold required_specs. in_keys.
  - intros k v [_ [_ Hkv]%lookup_delete_Some]%lookup_delete_Some. by apply Hk.
  - intros k v [_ Hkv]%lookup_delete_Some. by apply Hk.
  - intros d [= <-]. split; [done | apply strip_idem].
Qed.

Lemma reachable_stored_ok sessions :
  reachable sessions → ∀ uid s, sessions !! uid = Some s → stored_ok uid s.
Proof.
  induction 1 as [|sessions uid a Hr IH]; intros u' s' Hs'.
  - by rewrite lookup_empty in Hs'.
  - apply handle_writes in Hs' as [Hs'|[-> Hw]]; [by apply IH|].
    apply (session_write_ok uid (sessions !! uid)); [|done].
    intros s Hs. by apply IH.
Qed.

(** A handler leaves the store alone, or writes or removes the entry of the
    acting user. *)
Lemma handle_store_shape sessions uid a :
  (handle sessions uid a).1 = sessions
  ∨ (∃ s, (handle sessions uid a).1 = <[uid := s]> sessions)
  ∨ (handle sessions uid a).1 = delete uid sessions.
Proof.
  destruct a; cbn [handle]; try rewrite back_to_quality_store;
    unfold_handler; cbv zeta; cbn [fst snd];
    repeat (case_match; cbn [fst snd]; simplify_eq);
    rewrite ?clear_session_fst, ?insert_insert_eq, ?delete_insert_eq;
    eauto.
Qed.

(** X3.  No handler of the order workflow reads or writes the session of a
    user other than the one it is called for: after any handler call for
    [uid], every other user's entry of the store is what it was. *)
Theorem handle_other_users_untouched sessions uid a other :
  other ≠ uid → (handle sessions uid a).1 !! other = sessions !! other.
Proof.
  intros Hne.
  destruct (handle_store_shape sessions uid a) as [->|[[s ->]| ->]].
  - done.
  - by rewrite lookup_insert_ne.
  - by rewrite lookup_delete_ne.
Qed.

End Writes.

(** ** What passes the validation before submission *)

Lemma validate_order_data_passes s :
  (∃ name, customer_name s = Some name ∧ 2 ≤ length (strip name)) →
  (∃ e, customer_email s = Some e ∧ _validate_email e = true) →
  (∃ id, service_id s = Some id ∧ id ≠ 0%Z) →
  files s ≠ [] →
  (∀ p, customer_phone s = Some p → _validate_phone p = true) →
  (∀ k, k ∈ required_specs → is_Some (specifications s !! k)) →
  (∃ needed, delivery_needed s = Some needed
             ∧ (needed = true → opt_truthy (delivery_details s) = true)) →
  _validate_order_data s = None.
Proof.
  intros (name & Hn & Hlen) (e & He & Hv) (sid & Hid & Hid0) Hf Hp Hk
         (needed & Hd & Hdd).
  unfold _validate_order_data. rewrite Hn, He, Hid, Hd.
  cbn [default from_option id opt_truthy of_opt_int py_truthy].
  assert (str_truthy name = true) as -> by (destruct name; [simpl in Hlen; lia|done]).
  assert ((length (strip name) <? 2) = false) as -> by (by apply Nat.ltb_ge).
  assert (str_truthy e = true) as -> by (by destruct e).
  rewrite Hv. cbn [negb orb].
  assert ((sid =? 0)%Z = false) as -> by (by apply Z.eqb_neq).
  cbn [negb].
  destruct (files s) as [|f fs] eqn:Hfs; [done|]. cbn [negb].
  assert (opt_truthy (customer_phone s)
          && negb (_validate_phone (default [] (customer_phone s))) = false) as ->.
  { destruct (customer_phone s) as [p|]; [|done]. cbn [default from_option id].
    rewrite (Hp p eq_refl). cbn [negb]. apply andb_false_r. }
  destruct (Hk (u "material")) as [vm Hm]; [unfold required_specs; in_keys|].
  destruct (Hk (u "quality")) as [vq Hq]; [unfold required_specs; in_keys|].
  destruct (Hk (u "infill")) as [vi Hi]; [unfold required_specs; in_keys|].
  assert (dict_truthy (specifications s) = true) as ->.
  { unfold dict_truthy. apply negb_true_iff, Nat.eqb_neq.
    intros Hsz%map_size_empty_iff. by rewrite Hsz, lookup_empty in Hm. }
  cbn [negb]. unfold required_specs. simpl List.find. rewrite Hm, Hq, Hi.
  rewrite !(bool_decide_eq_false_2 (Some _ = None)) by done.
  destruct needed; [|done]. rewrite (Hdd eq_refl). done.
Qed.

(** X4.  [_validate_order_data] returns no message exactly for a session
    with a name of at least two characters once trimmed, an email that
    [_validate_email] accepts, a service id other than 0, at least one
    file, a phone that is absent or accepted by [_validate_phone], the keys
    material, quality and infill among the specifications, and a delivery
    choice -- with non-empty delivery details if the choice is shipping. *)
Theorem validate_order_data_passes_iff s :
  _validate_order_data s = None
  ↔ (∃ name, customer_name s = Some name ∧ 2 ≤ length (strip name))
    ∧ (∃ e, customer_email s = Some e ∧ _validate_email e = true)
    ∧ (∃ id, service_id s = Some id ∧ id ≠ 0%Z)
    ∧ files s ≠ []
    ∧ (∀ p, customer_phone s = Some p → _validate_phone p = true)
    ∧ (∀ k, k ∈ required_specs → is_Some (specifications s !! k))
    ∧ (∃ needed, delivery_needed s = Some needed
                 ∧ (needed = true → opt_truthy (delivery_details s) = true)).
Proof.
  split; [apply validate_order_data_None|].
  intros (? & ? & ? & ? & ? & ? & ?). by apply validate_order_data_passes.
Qed.

(** ** Confirmation, continued *)

(** A session that passes the validation is complete. *)
Lemma validated_is_complete s : _validate_order_data s = None → is_complete s = true.
Proof.
  intros ((name & Hn & _) & (e & He & _) & (sid & Hid & _) & Hf & _)
    %validate_order_data_None.
  unfold is_complete. rewrite Hn, He, Hid. destruct (files s); done.
Qed.

(** X5.  The second guard of [confirm_order], [if not session.is_complete()],
    never fires: whatever the store, the user and the answer of the API,
    the reply "order incomplete" is not among the calls of [confirm_order],
    because a session that passes [_validate_order_data] is complete. *)
Theorem confirm_order_never_incomplete notification_service
    (sessions : SessionManager) uid create :
  (∀ s, _validate_order_data s = None → is_complete s = true)
  ∧ Forall (fun e => e ≠ Reply OrderIncomplete)
      (confirm_order notification_service sessions uid create).2.
Proof.
  split; [apply validated_is_complete|].
  apply Forall_forall. intros e Hin ->. revert Hin.
  unfold confirm_order, at_step.
  destruct (sessions !! uid) as [s|]; [|intros Hin; event_in Hin].
  case_bool_decide; [|intros Hin; event_in Hin].
  destruct (_validate_order_data s) as [msg|] eqn:Hv.
  { rewrite (validate_order_data_truthy s msg Hv). intros Hin. event_in Hin. }
  cbn [opt_truthy]. rewrite (validated_is_complete s Hv). cbn [negb].
  intros Hin. repeat case_match; event_in Hin.
  all: destruct notification_service; event_in Hin.
Qed.


(** ** More of the session store *)

(** X7.  [get_or_create_session] returns the session that the store then
    holds for the user: the existing one, with the store unchanged, or a
    fresh one at START; it touches no other user, and a second call returns
    what the first returned and changes nothing. *)
Theorem get_or_create_session_spec (sessions : SessionManager) uid now :
  let r := get_or_create_session sessions uid now in
  r.1 !! uid = Some r.2
  ∧ (∀ s, sessions !! uid = Some s → r = (sessions, s))
  ∧ (sessions !! uid = None → r.2 = new_session uid now ∧ step r.2 = START)
  ∧ (∀ other, other ≠ uid → r.1 !! other = sessions !! other)
  ∧ (∀ later, get_or_create_session r.1 uid later = r).
Proof.
  cbv zeta. unfold get_or_create_session, get_session, create_session.
  destruct (sessions !! uid) as [s|] eqn:Hs; cbn [fst snd].
  - split_and!; try done.
    + by intros s' [= ->].
    + intros later. by rewrite Hs.
  - split_and!; try done.
    + apply lookup_insert_eq.
    + intros other Hne. by apply lookup_insert_ne.
    + intros later. by rewrite lookup_insert_eq.
Qed.

Lemma fold_clear_lookup (l : list Z) : ∀ (sessions : SessionManager) uid,
  fold_left (fun store k => (clear_session store k).1) l sessions !! uid
  = if bool_decide (uid ∈ l) then None else sessions !! uid.
Proof.
  induction l as [|k l IH]; intros sessions uid; cbn [fold_left].
  - by rewrite bool_decide_eq_false_2 by apply not_elem_of_nil.
  - rewrite IH, clear_session_fst.
    destruct (decide (uid = k)) as [->|Hne].
    + rewrite lookup_delete_eq.
      rewrite (bool_decide_eq_true_2 (k ∈ k :: l)) by apply list_elem_of_here.
      by case_bool_decide.
    + rewrite lookup_delete_ne by done.
      case_bool_decide as Hin.
      * rewrite bool_decide_eq_true_2; [done|]. by apply list_elem_of_further.
      * rewrite bool_decide_eq_false_2; [done|].
        intros [?|?]%elem_of_cons; done.
Qed.

Lemma cleanup_old_sessions_lookup too_old (sessions : SessionManager) uid :
  cleanup_old_sessions too_old sessions !! uid
  = match sessions !! uid with
    | Some s => if too_old s then None else Some s
    | None => None
    end.
Proof.
  unfold cleanup_old_sessions. cbv zeta. rewrite fold_clear_lookup.
  case_bool_decide as Hin.
  - apply list_elem_of_In, in_map_iff in Hin as ([k s] & Hk & Hin).
    simpl in Hk. subst k. apply filter_In in Hin as [Hin Hold].
    apply list_elem_of_In, elem_of_map_to_list in Hin. simpl in Hold.
    by rewrite Hin, Hold.
  - destruct (sessions !! uid) as [s|] eqn:Hs; [|done].
    destruct (too_old s) eqn:Hold; [|done]. exfalso. apply Hin.
    apply list_elem_of_In, in_map_iff. exists (uid, s). split; [done|].
    apply filter_In. split; [|done].
    by apply list_elem_of_In, elem_of_map_to_list.
Qed.

(** X8.  [cleanup_old_sessions] removes exactly the sessions that are too
    old and keeps every other session as it is; running it again (with the
    same clock) changes nothing, and the number of active sessions does not
    grow. *)
Theorem cleanup_old_sessions_spec too_old (sessions : SessionManager) :
  (∀ uid, cleanup_old_sessions too_old sessions !! uid
          = match sessions !! uid with
            | Some s => if too_old s then None else Some s
            | None => None
            end)
  ∧ cleanup_old_sessions too_old (cleanup_old_sessions too_old sessions)
    = cleanup_old_sessions too_old sessions
  ∧ get_active_sessions_count (cleanup_old_sessions too_old sessions)
    ≤ get_active_sessions_count sessions.
Proof.
  split_and!.
  - apply cleanup_old_sessions_lookup.
  - apply map_eq. intros uid. rewrite !cleanup_old_sessions_lookup.
    destruct (sessions !! uid) as [s|]; [|done].
    destruct (too_old s) eqn:Hold; [done|]. by rewrite Hold.
  - unfold get_active_sessions_count. apply map_subseteq_size, map_subseteq_spec.
    intros uid s. rewrite cleanup_old_sessions_lookup.
    destruct (sessions !! uid) as [s0|]; [|done].
    by destruct (too_old s0).
Qed.

(** X9.  [_handle_order_creation_error] has no text for an [APIClientError]
    without a status code (a network failure): the comparison
    [status_code >= 500] raises on [None], and on nothing else.  With a
    status code, "server unavailable" is chosen exactly from 500 on, and the
    general "order not created" exactly below 500 other than 400 and 422. *)
Theorem handle_order_creation_error_spec :
  (∀ error, _handle_order_creation_error error = None
            ↔ error = APIClientError None)
  ∧ (∀ code, _handle_order_creation_error (APIClientError (Some code))
             = Some ServerUnavailable ↔ (500 ≤ code)%Z)
  ∧ (∀ code, _handle_order_creation_error (APIClientError (Some code))
             = Some OrderNotCreated
             ↔ (code < 500)%Z ∧ code ≠ 400%Z ∧ code ≠ 422%Z).
Proof.
  split_and!.
  - intros [[code|]|]; cbn; split; try done.
    repeat case_bool_decide; try done. by destruct (500 <=? code)%Z.
  - intros code. cbn. repeat case_bool_decide; simplify_eq.
    + split; [done | lia].
    + split; [done | lia].
    + destruct (Z.leb_spec 500 code); split; try done; lia.
  - intros code. cbn. repeat case_bool_decide; simplify_eq.
    + split; [done | lia].
    + split; [done | lia].
    + destruct (Z.leb_spec 500 code); split; try done; try lia.
      intros _. split_and!; [lia|congruence..].
Qed.

(** ** The sessions that the workflow can reach *)

Lemma to_order_data_bot_user_id s :
  ∃ sp, to_order_data s !! u "specifications" = Some (VDict sp)
        ∧ sp !! u "bot_user_id" = Some (VInt (user_id s)).
Proof.
  unfold to_order_data. eval_keys.
  destruct (delivery_needed s), (opt_truthy (delivery_details s)),
    (opt_truthy (customer_phone s)); eexists; (split; [by lookup_key|]);
    by lookup_key.
Qed.

Lemma reachable_fold_clear `{UnicodeCase} (l : list Z) : ∀ sessions,
  reachable sessions →
  reachable (fold_left (fun store uid => (clear_session store uid).1) l sessions).
Proof.
  induction l as [|k l IH]; intros sessions Hr; [done|]. cbn [fold_left].
  apply IH. exact (reachable_step sessions k Cancel Hr).
Qed.

Section Reachable.
Context `{UnicodeCase}.

(** X10.  A session is stored under the id of its user: in every store that
    the workflow can reach, the session found for [uid] has
    [user_id = uid], and so the payload built from it names that user as
    [bot_user_id]. *)
Theorem reachable_session_key (sessions : SessionManager) uid s :
  reachable sessions → sessions !! uid = Some s →
  user_id s = uid
  ∧ ∃ sp, to_order_data s !! u "specifications" = Some (VDict sp)
          ∧ sp !! u "bot_user_id" = Some (VInt uid).
Proof.
  intros Hr Hs. destruct (reachable_stored_ok sessions Hr uid s Hs) as (Hid & _).
  split; [done|]. rewrite <- Hid. apply to_order_data_bot_user_id.
Qed.

(** X11.  No stored session is at START or at COMPLETED: the handlers that
    create a session move it to SERVICE_SELECTION before they return, and
    the one that completes it removes it at once. *)
Theorem reachable_step_in_progress (sessions : SessionManager) uid s :
  reachable sessions → sessions !! uid = Some s →
  step s ≠ START ∧ step s ≠ COMPLETED.
Proof.
  intros Hr Hs.
  by destruct (reachable_stored_ok sessions Hr uid s Hs) as (_ & ? & _).
Qed.

(** X12.  The contact data of a stored session has passed its validator and
    is kept trimmed: the name is accepted by [_validate_name], has 2 to 50
    characters and no blank at either end; the email is accepted by
    [_validate_email]; a phone, if any, is not empty, accepted by
    [_validate_phone] and trimmed; delivery details, if any, have at least
    10 characters and are trimmed. *)
Theorem reachable_contact_data_valid (sessions : SessionManager) uid s :
  reachable sessions → sessions !! uid = Some s →
  (∀ n, customer_name s = Some n →
        _validate_name n = true ∧ strip n = n ∧ 2 ≤ length n ∧ length n ≤ 50)
  ∧ (∀ e, customer_email s = Some e → _validate_email e = true)
  ∧ (∀ p, customer_phone s = Some p →
          p ≠ [] ∧ _validate_phone p = true ∧ strip p = p)
  ∧ (∀ d, delivery_details s = Some d → 10 ≤ length d ∧ strip d = d).
Proof.
  intros Hr Hs.
  destruct (reachable_stored_ok sessions Hr uid s Hs)
    as (_ & _ & Hn & He & Hp & Hd & _).
  split_and!; try done.
  intros n Hsn. destruct (Hn n Hsn) as [Hv Hst]. split_and!; try done.
  all: apply validate_name_iff in Hv; rewrite Hst in Hv; lia.
Qed.

(** X13.  Every entry of [files] of a stored session is the record of an
    accepted upload: a dictionary with a non-empty filename that ends,
    case-insensitively, in .stl, .obj or .3mf, a size of at most 50 MB when
    the size is a number, the file id of the chat platform and the answer
    of the upload. *)
Theorem reachable_files_accepted (sessions : SessionManager) uid s :
  reachable sessions → sessions !! uid = Some s →
  Forall (fun v => ∃ d name,
            v = VDict d
            ∧ d !! u "filename" = Some (VStr name)
            ∧ name ≠ []
            ∧ endswith_any (lower name) supported_formats = true
            ∧ (∀ size, d !! u "size" = Some (VInt size) →
                       (size ≤ max_upload_size)%Z)
            ∧ is_Some (d !! u "telegram_file_id")
            ∧ is_Some (d !! u "upload_result"))
    (files s).
Proof.
  intros Hr Hs.
  destruct (reachable_stored_ok sessions Hr uid s Hs)
    as (_ & _ & _ & _ & _ & _ & Hf & _).
  eapply Forall_impl; [exact Hf|]. cbn beta.
  intros v (file & r & -> & Hacc). unfold upload_accepted in Hacc.
  apply andb_true_iff in Hacc as [[Hname Hext]%andb_true_iff Hsize].
  destruct (file_name file) as [name|] eqn:Hfn; [|done].
  unfold file_info. rewrite Hfn.
  cbn [default from_option id opt_truthy] in *.
  eexists _, name. split; [reflexivity|].
  eval_keys. split_and!.
  - by lookup_key.
  - by destruct name.
  - done.
  - lookup_key. intros size Hsz. destruct (file_size file) as [z|]; [|done].
    injection Hsz as ->. cbn in Hsize.
    apply negb_true_iff, andb_false_iff in Hsize as [Hz|Hlt].
    + apply negb_false_iff, Z.eqb_eq in Hz. subst. by vm_compute.
    + by apply Z.ltb_ge.
  - lookup_key. by eexists.
  - lookup_key. by eexists.
Qed.

(** X14.  The specifications of a stored session hold nothing but the three
    print parameters: every key is material, quality or infill, and every
    value is the text of the user's choice. *)
Theorem reachable_specification_keys (sessions : SessionManager) uid s :
  reachable sessions → sessions !! uid = Some s →
  ∀ k v, specifications s !! k = Some v →
         (k = u "material" ∨ k = u "quality" ∨ k = u "infill")
         ∧ ∃ choice, v = VStr choice.
Proof.
  intros Hr Hs k v Hkv.
  destruct (reachable_stored_ok sessions Hr uid s Hs)
    as (_ & _ & _ & _ & _ & _ & _ & Hk).
  destruct (Hk k v Hkv) as [Hin Hv]. split; [|done].
  unfold required_specs in Hin. rewrite !elem_of_cons in Hin.
  destruct Hin as [?|[?|[?|Hin]]]; auto. by apply elem_of_nil in Hin.
Qed.

(** X15.  On the sessions that the workflow can reach, the validation
    before submission fails only for data that is missing, never for data
    that is there and malformed (a service with id 0 apart): it passes
    exactly when name, email, a non-zero service, a file, the three print
    parameters and the delivery choice are there, with the details if the
    choice is shipping. *)
Theorem reachable_validation_only_missing (sessions : SessionManager) uid s :
  reachable sessions → sessions !! uid = Some s →
  _validate_order_data s = None
  ↔ customer_name s ≠ None
    ∧ customer_email s ≠ None
    ∧ (∃ sid, service_id s = Some sid ∧ sid ≠ 0%Z)
    ∧ files s ≠ []
    ∧ (∀ k, k ∈ required_specs → is_Some (specifications s !! k))
    ∧ (delivery_needed s = Some false
       ∨ (delivery_needed s = Some true ∧ delivery_details s ≠ None)).
Proof.
  intros Hr Hs.
  destruct (reachable_stored_ok sessions Hr uid s Hs)
    as (_ & _ & Hn & He & Hp & Hd & _).
  split.
  - intros ((name & Hname & _) & (e & Hmail & _) & Hsid & Hf & _ & Hk
            & (needed & Hnd & Hdd))%validate_order_data_None.
    rewrite Hname, Hmail. split_and!; try done.
    destruct needed; [right|by left]. split; [done|].
    specialize (Hdd eq_refl). by destruct (delivery_details s).
  - intros (Hname & Hmail & Hsid & Hf & Hk & Hdel).
    destruct (customer_name s) as [name|] eqn:Hsn; [|done].
    destruct (customer_email s) as [e|] eqn:Hse; [|done].
    apply validate_order_data_passes; try done.
    + exists name. split; [done|]. destruct (Hn name eq_refl) as [Hv Hst].
      apply validate_name_iff in Hv. lia.
    + exists e. split; [done|]. by apply He.
    + intros p Hsp. by destruct (Hp p Hsp) as (_ & ? & _).
    + destruct Hdel as [Hdn|[Hdn Hdd]].
      * exists false. by split.
      * exists true. split; [done|]. intros _.
        destruct (delivery_details s) as [d|] eqn:Hsd; [|done].
        destruct (Hd d eq_refl) as [Hlen _]. destruct d; [simpl in Hlen; lia|done].
Qed.

End Reachable.

(** ** The bot: updates and the store *)

Ltac unfold_update :=
  cbn [handle_update]; unfold handle_callback_query, handle_text_message,
    route_text, handle_file, call_handler, defines; cbn [from_callback];
  cbn [handle]; try rewrite back_to_quality_store;
  unfold_handler; cbv zeta; cbn [fst snd].

Ltac split_store Hs' :=
  rewrite ?clear_session_fst in Hs';
  repeat match type of Hs' with
    | <[?k := _]> _ !! ?k = Some _ => rewrite lookup_insert_eq in Hs'
    | <[_ := _]> _ !! _ = Some _ =>
        apply lookup_insert_Some in Hs' as [[<- <-]|[? Hs']]
    | delete _ _ !! _ = Some _ =>
        apply lookup_delete_Some in Hs' as [? Hs']
    end.

Ltac clean_bools :=
  repeat match goal with
    | H : bool_decide _ = true |- _ => apply bool_decide_eq_true in H
    | H : bool_decide _ = false |- _ => apply bool_decide_eq_false in H
    | H : negb _ = false |- _ => apply negb_false_iff in H
    | H : negb _ = true |- _ => apply negb_true_iff in H
    | H : _ && _ = true |- _ => apply andb_true_iff in H as [? ?]
    end.

Section Bot.
Context `{UnicodeCase} `{HandlerClass}.

(** A call of a handler runs it, or raises and leaves the store alone. *)
Lemma call_handler_as_handle sessions uid a :
  (call_handler sessions uid a).1 = sessions
  ∨ (call_handler sessions uid a).1 = (handle sessions uid a).1.
Proof. unfold call_handler. destruct (defines a); [by right | by left]. Qed.

(** Every update is a handler call or leaves the store alone, whatever the
    class of the handlers. *)
Lemma handle_update_as_handle sessions uid upd :
  (handle_update sessions uid upd).1 = sessions
  ∨ ∃ a, (handle_update sessions uid upd).1 = (handle sessions uid a).1.
Proof.
  destruct upd as [a|now services| |tracking subscribing text
                  |document download upload];
    cbn [handle_update].
  - unfold handle_callback_query. destruct (from_callback a); [|by left].
    destruct (call_handler_as_handle sessions uid a) as [Hc|Hc];
      destruct (call_handler sessions uid a) as [m [ev| |]];
      cbn [fst] in *; subst; eauto.
  - destruct (call_handler_as_handle sessions uid (StartOrder now services))
      as [->| ->]; eauto.
  - right. by exists Cancel.
  - unfold handle_text_message.
    destruct tracking; [by left|]. destruct subscribing; [by left|].
    destruct (route_text sessions uid); try (by left).
    + destruct (call_handler_as_handle sessions uid (ContactName text))
        as [->| ->]; eauto.
    + destruct (call_handler_as_handle sessions uid (ContactEmail text))
        as [->| ->]; eauto.
    + destruct (call_handler_as_handle sessions uid (ContactPhone text))
        as [->| ->]; eauto.
    + destruct (call_handler_as_handle sessions uid (DeliveryAddress text))
        as [->| ->]; eauto.
  - unfold handle_file. cbv zeta. case_match; [|by left].
    destruct (call_handler_as_handle sessions uid
                (FileUpload document download upload)) as [->| ->]; eauto.
Qed.

Lemma bot_reachable_reachable sessions : bot_reachable sessions → reachable sessions.
Proof.
  induction 1 as [|sessions uid upd Hr IH|sessions too_old Hr IH]; [constructor| |].
  - destruct (handle_update_as_handle sessions uid upd) as [->|[a ->]];
      [done | by constructor].
  - by apply reachable_fold_clear.
Qed.

Lemma bot_reachable_run_updates uid updates : ∀ sessions,
  bot_reachable sessions → bot_reachable (run_updates sessions uid updates).
Proof.
  unfold run_updates.
  induction updates as [|upd updates IH]; intros sessions Hr; [done|].
  cbn [fold_left]. apply IH. by constructor.
Qed.

Lemma handle_update_collected sessions uid upd u' s' :
  (∀ s, sessions !! u' = Some s → collected_in_order s) →
  (handle_update sessions uid upd).1 !! u' = Some s' →
  collected_in_order s'.
Proof.
  intros Hold.
  destruct upd as [a|now services| |tracking subscribing text
                  |document download upload];
    [destruct a|..]; unfold_update;
    repeat (first [rewrite lookup_insert_eq | case_match]; cbn [fst snd];
            simplify_eq);
    intros Hs'; cbn [fst snd] in Hs'; split_store Hs';
    try (by apply Hold); try done;
    clean_bools;
    match goal with
    | Ho : sessions !! ?k = Some ?o |- _ =>
        pose proof (Hold o Ho) as (Hi1 & Hi2 & Hi3)
    | _ => idtac
    end;
    unfold collected_in_order, set_spec, pop_spec;
    cbn [customer_name customer_email customer_phone delivery_details
         delivery_needed new_session
         set_step set_service_id set_service_name set_customer_name
         set_customer_email set_customer_phone set_files set_specifications
         set_delivery_needed set_delivery_details];
    split_and!; try done; try congruence; intros; auto;
    try match goal with
      | Hf : opt_truthy ?x = false, Hi : ?y ≠ None → opt_truthy ?x = true |- _ =>
          destruct y; [rewrite Hi in Hf; done | done]
      end.
Qed.

Lemma bot_reachable_collected sessions :
  bot_reachable sessions →
  ∀ uid s, sessions !! uid = Some s → collected_in_order s.
Proof.
  induction 1 as [|sessions uid upd Hr IH|sessions too_old Hr IH];
    intros u' s' Hs'.
  - by rewrite lookup_empty in Hs'.
  - eapply handle_update_collected; [|exact Hs']. intros s Hs. by eapply IH.
  - rewrite cleanup_old_sessions_lookup in Hs'.
    destruct (sessions !! u') as [s|] eqn:Hs; [|done].
    destruct (too_old s); [done|]. injection Hs' as <-. by eapply IH.
Qed.

(** X16.  The bot collects the contact data in order.  In every store that
    updates and clean-ups can produce, a session with an email has a name,
    a session with a phone has an email, and a session with delivery
    details has chosen shipping: [handle_text_message] sends a text to the
    email handler only once the name is there, and so on. *)
Theorem bot_collects_in_order sessions :
  bot_reachable sessions →
  ∀ uid s, sessions !! uid = Some s →
    (customer_email s ≠ None → customer_name s ≠ None)
    ∧ (customer_phone s ≠ None → customer_email s ≠ None)
    ∧ (delivery_details s ≠ None → delivery_needed s = Some true).
Proof.
  intros Hr uid s Hs.
  destruct (bot_reachable_collected sessions Hr uid s Hs) as (H1 & H2 & H3).
  split_and!; [| |done].
  - intros He. specialize (H1 He). by destruct (customer_name s).
  - intros Hp. specialize (H2 Hp). by destruct (customer_email s).
Qed.

(** X17.  The payload of a session that the bot has stored carries the
    delivery details exactly when the session has some; in particular it
    never carries an address together with delivery_needed = "false". *)
Theorem bot_payload_delivery_details sessions uid s :
  bot_reachable sessions → sessions !! uid = Some s →
  to_order_data s !! u "delivery_details" = VStr <$> delivery_details s
  ∧ (to_order_data s !! u "delivery_needed" = Some (VStr (u "false")) →
     to_order_data s !! u "delivery_details" = None).
Proof.
  intros Hr Hs.
  destruct (bot_reachable_collected sessions Hr uid s Hs) as (_ & _ & Hd).
  destruct (reachable_stored_ok sessions (bot_reachable_reachable _ Hr) uid s Hs)
    as (_ & _ & _ & _ & _ & Hlen & _).
  unfold to_order_data. eval_keys.
  destruct (delivery_details s) as [d|] eqn:Hsd.
  - rewrite (Hd ltac:(done)). destruct (Hlen d eq_refl) as [Hl _].
    assert (str_truthy d = true) as Ht by (destruct d; [simpl in Hl; lia|done]).
    cbn [opt_truthy of_opt_str fmap option_fmap option_map]. rewrite Ht.
    split; [by lookup_key|]. lookup_key. intros [=].
  - cbn [opt_truthy]. destruct (delivery_needed s) as [[]|]; split; by lookup_key.
Qed.

(** X18.  Once a name is stored, no update changes it, short of starting
    the order again; the same holds for the email once name and email are
    stored: a later text at CONTACT_INFO is taken for the next field that
    is missing, never as a correction. *)
Theorem bot_contact_data_frozen sessions uid upd s s' :
  sessions !! uid = Some s →
  (handle_update sessions uid upd).1 !! uid = Some s' →
  (∀ now services, upd ≠ OrderCommand now services) →
  (∀ now services, upd ≠ CallbackQuery (StartOrder now services)) →
  (opt_truthy (customer_name s) = true → customer_name s' = customer_name s)
  ∧ (opt_truthy (customer_name s) = true → opt_truthy (customer_email s) = true →
     customer_email s' = customer_email s).
Proof.
  intros Hs Hs' Hcmd Hcb. revert Hs'.
  destruct upd as [a|now services| |tracking subscribing text
                  |document download upload];
    [destruct a|..]; try (by edestruct Hcmd); try (by edestruct Hcb);
    unfold_update; rewrite ?Hs;
    repeat (first [rewrite lookup_insert_eq | case_match]; cbn [fst snd];
            simplify_eq);
    intros Hs'; cbn [fst snd] in Hs'; split_store Hs'; simplify_eq; try done;
    clean_bools;
    cbn [customer_name customer_email set_spec pop_spec
         set_step set_service_id set_service_name set_customer_name
         set_customer_email set_customer_phone set_files set_specifications
         set_delivery_needed set_delivery_details];
    split; intros; try done; congruence.
Qed.

(** ** Guards and refusals *)

(** X19.  A handler that insists on a step refuses every other one: called
    for a user whose session is at another step, or who has no session, it
    leaves the store as it was and its only call is the session error
    "invalid_step" -- whatever its input, valid or not. *)
Theorem guarded_handlers_refuse_other_steps (sessions : SessionManager) uid a
    expected :
  expected_step a = Some expected →
  (∀ s, sessions !! uid = Some s → step s ≠ expected) →
  handle sessions uid a = (sessions, [HandleSessionError (u "invalid_step")]).
Proof.
  intros Ha Hstep.
  destruct a; try discriminate Ha; injection Ha as <-; cbn [handle];
    unfold_handler;
    (destruct (sessions !! uid) as [s|] eqn:Hs; [|done]);
    by rewrite (bool_decide_eq_false_2 _ (Hstep s eq_refl)).
Qed.

(** X20.  An input that is turned down changes nothing: a text that fails
    its validator, a document that is not accepted, whose download or
    upload fails, a service that the catalogue does not list or cannot be
    fetched, an order whose creation raises -- after each of them the store
    is what it was, at any step. *)
Theorem turned_down_leaves_store sessions uid a :
  turned_down a = true → (handle sessions uid a).1 = sessions.
Proof.
  destruct a; try discriminate; cbn [turned_down handle]; intros Ht;
    unfold_handler; cbv zeta; cbn [fst snd];
    repeat (case_match; cbn [fst snd] in *; simplify_eq); try done.
  all: clean_bools; try congruence.
  match goal with
  | Ht : upload_accepted ?d = false, Hn : opt_truthy (file_name ?d) = true,
    He : endswith_any _ _ = true, Hz : _ && _ = false |- _ =>
      unfold upload_accepted in Ht; by rewrite Hn, He, Hz in Ht
  end.
Qed.

(** X21.  An accepted upload appends its record to the files of the
    session, and "remove last file" right after it gives back the store as
    it was before the upload; in general "remove last file" takes away
    exactly the newest entry and keeps the others in order. *)
Theorem upload_then_remove_last_file (sessions : SessionManager) uid s file r :
  sessions !! uid = Some s →
  step s = FILE_UPLOAD →
  upload_accepted file = true →
  let sessions1 :=
    (handle_file_upload sessions uid (Some file) (Returns tt) (Returns r)).1 in
  sessions1 = <[uid := set_files (files s ++ [file_info file r]) s]> sessions
  ∧ (remove_last_file sessions1 uid).1 = sessions
  ∧ (∀ older newest,
       files s = older ++ [newest] →
       (remove_last_file sessions uid).1 = <[uid := set_files older s]> sessions).
Proof.
  intros Hs Hstep Hacc. cbv zeta.
  unfold upload_accepted in Hacc.
  apply andb_true_iff in Hacc as [[Hn He]%andb_true_iff Hz%negb_true_iff].
  assert (Hup : (handle_file_upload sessions uid (Some file) (Returns tt) (Returns r)).1
                = <[uid := set_files (files s ++ [file_info file r]) s]> sessions).
  { unfold handle_file_upload, at_step. rewrite Hs, Hstep.
    rewrite bool_decide_eq_true_2 by done. by rewrite Hn, He, Hz. }
  rewrite Hup. split_and!; [done| |].
  - unfold remove_last_file. rewrite lookup_insert_eq.
    cbn [files set_files py_truthy]. destruct (files s ++ [file_info file r]) eqn:Hl.
    { by destruct (files s). }
    rewrite <- Hl. cbn [negb fst]. rewrite removelast_last, insert_insert_eq.
    destruct s. by apply insert_id.
  - intros older newest Hf. unfold remove_last_file. rewrite Hs, Hf.
    cbn [py_truthy]. destruct (older ++ [newest]) eqn:Hl; [by destruct older|].
    rewrite <- Hl. cbn [negb fst]. by rewrite removelast_last.
Qed.

(** X22.  The delivery choice as it reaches the payload.  From DELIVERY,
    pickup leads to CONFIRMATION with delivery_needed = "false" and no
    delivery details in the payload; shipping followed by an address of at
    least 10 characters (trimmed) leads to CONFIRMATION with
    delivery_needed = "true" and the trimmed address as the details. *)
Theorem delivery_choice_in_payload (sessions : SessionManager) uid s :
  sessions !! uid = Some s →
  step s = DELIVERY →
  (∃ s', (handle_delivery_pickup sessions uid).1 !! uid = Some s'
         ∧ step s' = CONFIRMATION
         ∧ to_order_data s' !! u "delivery_needed" = Some (VStr (u "false"))
         ∧ to_order_data s' !! u "delivery_details" = None)
  ∧ (∀ address, 10 ≤ length (strip address) →
       ∃ s', (handle_delivery_address
                (handle_delivery_shipping sessions uid).1 uid address).1 !! uid
             = Some s'
             ∧ step s' = CONFIRMATION
             ∧ to_order_data s' !! u "delivery_needed" = Some (VStr (u "true"))
             ∧ to_order_data s' !! u "delivery_details"
               = Some (VStr (strip address))).
Proof.
  intros Hs Hstep. split.
  - unfold handle_delivery_pickup, at_step. rewrite Hs, Hstep.
    rewrite bool_decide_eq_true_2 by done. cbv zeta. cbn [fst].
    rewrite lookup_insert_eq. eexists. split; [done|]. split; [done|].
    unfold to_order_data.
    cbn [delivery_needed delivery_details set_step set_delivery_details
         set_delivery_needed opt_truthy].
    eval_keys. split; by lookup_key.
  - intros address Hlen.
    unfold handle_delivery_shipping, handle_delivery_address, at_step.
    rewrite Hs, Hstep. rewrite bool_decide_eq_true_2 by done. cbn [fst].
    rewrite lookup_insert_eq. cbn [step set_delivery_needed]. rewrite Hstep.
    rewrite bool_decide_eq_true_2 by done.
    apply Nat.ltb_ge in Hlen as Hlt. rewrite Hlt. cbv zeta. cbn [fst].
    rewrite lookup_insert_eq. eexists. split; [done|]. split; [done|].
    unfold to_order_data.
    cbn [delivery_needed delivery_details set_step set_delivery_details
         set_delivery_needed opt_truthy of_opt_str].
    assert (str_truthy (strip address) = true) as ->
      by (destruct (strip address); [simpl in Hlen; lia|done]).
    eval_keys. split; by lookup_key.
Qed.

End Bot.

(** ** From the order command to the submission *)



(** With the handlers of [order_handlers.py] only, an update keeps every
    session as it is found after the choice of the service, and submits
    nothing. *)
Lemma imported_handle_update `{UnicodeCase} sessions uid upd :
  (∀ u s, sessions !! u = Some s → only_service_chosen s) →
  (∀ u s, (@handle_update _ order_handlers_py sessions uid upd).1 !! u = Some s →
          only_service_chosen s)
  ∧ (∀ events,
       (@handle_update _ order_handlers_py sessions uid upd).2 = Returns events →
       ∀ d, CreateOrder d ∉ events).
Proof.
  intros Hold.
  assert (Hstep : ∀ s, sessions !! uid = Some s → step s ≠ CONFIRMATION).
  { intros s Hs. destruct (Hold uid s Hs) as ([Hst|Hst] & _); congruence. }
  destruct upd as [a|now services| |tracking subscribing text
                  |document download upload];
    [destruct a|..]; unfold_update; unfold order_handlers_py;
    cbn [fst snd].
  all: repeat (case_match; cbn [fst snd]; simplify_eq).
  all: clean_bools; try (by edestruct Hstep).
  all: split;
    [ intros u0 s0 Hs'; cbn [fst snd] in Hs'; split_store Hs';
      try done;
      try match goal with
        | Hlk : _ !! ?k = Some ?x |- only_service_chosen ?x => exact (Hold k x Hlk)
        end;
      try match goal with
        | Ho : _ !! _ = Some ?o |- only_service_chosen _ =>
            pose proof (Hold _ o Ho) as (Hi0 & Hi1 & Hi2 & Hi3 & Hi4 & Hi5 & Hi6 & Hi7)
        end;
      unfold only_service_chosen;
      cbn [step customer_name customer_email customer_phone files
           specifications delivery_needed delivery_details new_session
           set_step set_service_id set_service_name];
      split_and!; auto
    | intros events Hev payload Hin; cbn [fst snd] in Hev; simplify_eq;
      unfold show_service_selection, show_contact_info_collection, show_prompt
        in Hin;
      repeat case_match; event_in Hin ].
Qed.

Lemma imported_reachable `{UnicodeCase} sessions :
  @bot_reachable _ order_handlers_py sessions →
  ∀ uid s, sessions !! uid = Some s → only_service_chosen s.
Proof.
  induction 1 as [|sessions uid upd Hr IH|sessions too_old Hr IH];
    intros u' s' Hs'.
  - by rewrite lookup_empty in Hs'.
  - by apply (proj1 (imported_handle_update sessions uid upd IH) u' s').
  - rewrite cleanup_old_sessions_lookup in Hs'.
    destruct (sessions !! u') as [s|] eqn:Hs; [|done].
    destruct (too_old s); [done|]. injection Hs' as <-. by eapply IH.
Qed.

(** X24.  As [main.py] is wired, no order is ever submitted.  [main.py]
    takes [OrderHandlers] from [order_handlers.py], whose class defines, of
    the handlers that [main.py] calls, only [start_order_process],
    [handle_service_selection] and [confirm_order].  So in every store that
    updates and clean-ups can produce, a session is at SERVICE_SELECTION or
    at CONTACT_INFO and holds no name, email, phone, file, print parameter
    or delivery choice; and no update makes a call of the order-creation
    API. *)
Theorem imported_handlers_never_submit `{UnicodeCase} (sessions : SessionManager) :
  @bot_reachable _ order_handlers_py sessions →
  (∀ uid s, sessions !! uid = Some s →
     (step s = SERVICE_SELECTION ∨ step s = CONTACT_INFO)
     ∧ customer_name s = None ∧ customer_email s = None
     ∧ customer_phone s = None ∧ files s = [] ∧ specifications s = ∅
     ∧ delivery_needed s = None ∧ delivery_details s = None)
  ∧ (∀ uid upd events,
       (@handle_update _ order_handlers_py sessions uid upd).2 = Returns events →
       ∀ d, CreateOrder d ∉ events).
Proof.
  intros Hr. split.
  - intros uid s Hs. exact (imported_reachable sessions Hr uid s Hs).
  - intros uid upd.
    exact (proj2 (imported_handle_update sessions uid upd
                    (imported_reachable sessions Hr))).
Qed.


Section Flow.
Context `{UnicodeCase}.


End Flow.
(** ** The further properties at work on the worked orders *)

(** While user 1 is uploading files, user 2 starts an order: the session of
    user 1 is what it was. *)
Lemma handle_other_users_untouched_witness :
  let sessions := @run caseless ∅ order_until_files in
  (@handle caseless sessions 2 (StartOrder 7 (Returns [example_service]))).1 !! 1%Z
  = sessions !! 1%Z.
Proof. cbv zeta. apply (@handle_other_users_untouched caseless). lia. Defined.


(** The session of user 1 is stored under 1 and its payload says so. *)
Lemma reachable_session_key_witness :
  let sessions := @run caseless ∅ order_until_files in
  ∃ s, sessions !! 1%Z = Some s
       ∧ user_id s = 1%Z
       ∧ ∃ sp, to_order_data s !! u "specifications" = Some (VDict sp)
               ∧ sp !! u "bot_user_id" = Some (VInt 1).
Proof.
  cbv zeta.
  match goal with
  | |- ∃ s, ?m !! ?k = _ ∧ _ =>
      let o := eval vm_compute in (m !! k) in
      match o with
      | Some ?x =>
          exists x; split; [vm_compute; reflexivity|];
          exact (@reachable_session_key caseless m k x
                   (reachable_run _ ∅ reachable_empty)
                   ltac:(vm_compute; reflexivity))
      end
  end.
Defined.

Lemma reachable_step_in_progress_witness :
  let sessions := @run caseless ∅ order_until_files in
  ∃ s, sessions !! 1%Z = Some s ∧ step s ≠ START ∧ step s ≠ COMPLETED.
Proof.
  cbv zeta.
  match goal with
  | |- ∃ s, ?m !! ?k = _ ∧ _ =>
      let o := eval vm_compute in (m !! k) in
      match o with
      | Some ?x =>
          exists x; split; [vm_compute; reflexivity|];
          exact (@reachable_step_in_progress caseless m k x
                   (reachable_run _ ∅ reachable_empty)
                   ltac:(vm_compute; reflexivity))
      end
  end.
Defined.

(** "Jane Doe" as it is stored. *)
Lemma reachable_contact_data_valid_witness :
  let sessions := @run caseless ∅ order_until_files in
  ∃ s, sessions !! 1%Z = Some s
       ∧ customer_name s = Some (u "Jane Doe")
       ∧ _validate_name (u "Jane Doe") = true
       ∧ strip (u "Jane Doe") = u "Jane Doe".
Proof.
  cbv zeta.
  match goal with
  | |- ∃ s, ?m !! ?k = _ ∧ _ =>
      let o := eval vm_compute in (m !! k) in
      match o with
      | Some ?x =>
          exists x; split; [vm_compute; reflexivity|];
          split; [vm_compute; reflexivity|];
          destruct (proj1 (@reachable_contact_data_valid caseless m k x
                             (reachable_run _ ∅ reachable_empty)
                             ltac:(vm_compute; reflexivity))
                      (u "Jane Doe") ltac:(vm_compute; reflexivity))
            as (Hv & Hs & _);
          exact (conj Hv Hs)
      end
  end.
Defined.

(** The record of "model.stl". *)
Lemma reachable_files_accepted_witness :
  let sessions := @run caseless ∅ order_until_confirmation in
  ∃ s, sessions !! 1%Z = Some s
       ∧ Forall (fun v => ∃ d name,
                   v = VDict d
                   ∧ d !! u "filename" = Some (VStr name)
                   ∧ name ≠ []
                   ∧ endswith_any (@lower caseless name) supported_formats = true
                   ∧ (∀ size, d !! u "size" = Some (VInt size) →
                              (size ≤ max_upload_size)%Z)
                   ∧ is_Some (d !! u "telegram_file_id")
                   ∧ is_Some (d !! u "upload_result"))
           (files s).
Proof.
  cbv zeta.
  match goal with
  | |- ∃ s, ?m !! ?k = _ ∧ _ =>
      let o := eval vm_compute in (m !! k) in
      match o with
      | Some ?x =>
          exists x; split; [vm_compute; reflexivity|];
          exact (@reachable_files_accepted caseless m k x
                   (reachable_run _ ∅ reachable_empty)
                   ltac:(vm_compute; reflexivity))
      end
  end.
Defined.

Lemma reachable_specification_keys_witness :
  let sessions := @run caseless ∅ order_until_confirmation in
  ∃ s, sessions !! 1%Z = Some s
       ∧ ∀ k v, specifications s !! k = Some v →
                (k = u "material" ∨ k = u "quality" ∨ k = u "infill")
                ∧ ∃ choice, v = VStr choice.
Proof.
  cbv zeta.
  match goal with
  | |- ∃ s, ?m !! ?k = _ ∧ _ =>
      let o := eval vm_compute in (m !! k) in
      match o with
      | Some ?x =>
          exists x; split; [vm_compute; reflexivity|];
          exact (@reachable_specification_keys caseless m k x
                   (reachable_run _ ∅ reachable_empty)
                   ltac:(vm_compute; reflexivity))
      end
  end.
Defined.

(** The complete order of the worked example passes the validation:
    nothing is missing. *)
Lemma reachable_validation_only_missing_witness :
  let sessions := @run caseless ∅ order_until_confirmation in
  ∃ s, sessions !! 1%Z = Some s
       ∧ _validate_order_data s = None
       ∧ customer_name s ≠ None
       ∧ customer_email s ≠ None
       ∧ (∃ sid, service_id s = Some sid ∧ sid ≠ 0%Z)
       ∧ files s ≠ []
       ∧ (∀ k, k ∈ required_specs → is_Some (specifications s !! k))
       ∧ (delivery_needed s = Some false
          ∨ (delivery_needed s = Some true ∧ delivery_details s ≠ None)).
Proof.
  cbv zeta.
  match goal with
  | |- ∃ s, ?m !! ?k = _ ∧ _ =>
      let o := eval vm_compute in (m !! k) in
      match o with
      | Some ?x =>
          exists x; split; [vm_compute; reflexivity|];
          assert (Hv : _validate_order_data x = None) by (vm_compute; reflexivity);
          split; [exact Hv|];
          exact (proj1 (@reachable_validation_only_missing caseless m k x
                          (reachable_run _ ∅ reachable_empty)
                          ltac:(vm_compute; reflexivity)) Hv)
      end
  end.
Defined.

(** The order of the worked example through the bot. *)
Lemma bot_collects_in_order_witness :
  let sessions := @run_updates caseless order_handlers_backup_py ∅ 1 example_order in
  ∃ s, sessions !! 1%Z = Some s
       ∧ (customer_email s ≠ None → customer_name s ≠ None)
       ∧ (customer_phone s ≠ None → customer_email s ≠ None)
       ∧ (delivery_details s ≠ None → delivery_needed s = Some true).
Proof.
  cbv zeta.
  match goal with
  | |- ∃ s, ?m !! ?k = _ ∧ _ =>
      let o := eval vm_compute in (m !! k) in
      match o with
      | Some ?x =>
          exists x; split; [vm_compute; reflexivity|];
          exact (@bot_collects_in_order caseless order_handlers_backup_py m
                   (bot_reachable_run_updates 1 example_order ∅ bot_reachable_empty)
                   k x ltac:(vm_compute; reflexivity))
      end
  end.
Defined.

Lemma bot_payload_delivery_details_witness :
  let sessions := @run_updates caseless order_handlers_backup_py ∅ 1 example_order in
  ∃ s, sessions !! 1%Z = Some s
       ∧ delivery_details s = Some (u "1 Main Street, Springfield")
       ∧ to_order_data s !! u "delivery_details" = VStr <$> delivery_details s.
Proof.
  cbv zeta.
  match goal with
  | |- ∃ s, ?m !! ?k = _ ∧ _ =>
      let o := eval vm_compute in (m !! k) in
      match o with
      | Some ?x =>
          exists x; split; [vm_compute; reflexivity|];
          split; [vm_compute; reflexivity|];
          exact (proj1 (@bot_payload_delivery_details caseless order_handlers_backup_py
                          m k x
                   (bot_reachable_run_updates 1 example_order ∅ bot_reachable_empty)
                   ltac:(vm_compute; reflexivity)))
      end
  end.
Defined.

(** With the name "Jane Doe" stored, the next text is taken for the email:
    the name stays. *)
Lemma bot_contact_data_frozen_witness :
  let sessions :=
    @run_updates caseless order_handlers_backup_py ∅ 1
      [ OrderCommand 0 (Returns [example_service]);
        CallbackQuery (SelectService 1 (Returns [example_service]));
        TextMessage false false (u "Jane Doe") ] in
  let sessions1 :=
    (@handle_update caseless order_handlers_backup_py sessions 1
       (TextMessage false false (u "John Roe"))).1 in
  ∃ s s', sessions !! 1%Z = Some s ∧ sessions1 !! 1%Z = Some s'
          ∧ customer_name s = Some (u "Jane Doe")
          ∧ customer_name s' = customer_name s.
Proof.
  cbv zeta.
  match goal with
  | |- ∃ s s', ?m !! ?k = _ ∧ ?m1 !! ?k = _ ∧ _ =>
      let o := eval vm_compute in (m !! k) in
      let o1 := eval vm_compute in (m1 !! k) in
      match o with
      | Some ?x =>
          match o1 with
          | Some ?x1 =>
              exists x, x1; split; [vm_compute; reflexivity|];
              split; [vm_compute; reflexivity|];
              split; [vm_compute; reflexivity|];
              apply (proj1 (@bot_contact_data_frozen caseless order_handlers_backup_py m k
                              (TextMessage false false (u "John Roe")) x x1
                              ltac:(vm_compute; reflexivity)
                              ltac:(vm_compute; reflexivity)
                              ltac:(intros; discriminate)
                              ltac:(intros; discriminate)));
              vm_compute; reflexivity
          end
      end
  end.
Defined.

(** A name sent while the session waits for files is refused. *)
Lemma guarded_handlers_refuse_other_steps_witness :
  let sessions := @run caseless ∅ order_until_files in
  @handle caseless sessions 1 (ContactName (u "John Roe"))
  = (sessions, [HandleSessionError (u "invalid_step")]).
Proof.
  cbv zeta.
  set (m := @run caseless ∅ order_until_files).
  assert (Hm : (step <$> m !! 1%Z) = Some FILE_UPLOAD) by (vm_compute; reflexivity).
  apply (@guarded_handlers_refuse_other_steps caseless m 1
           (ContactName (u "John Roe")) CONTACT_INFO); [reflexivity|].
  intros s Hs. rewrite Hs in Hm. injection Hm as ->. discriminate.
Defined.

(** "design.txt" is turned down. *)
Lemma turned_down_leaves_store_witness :
  let sessions := @run caseless ∅ order_until_files in
  (@handle caseless sessions 1
     (FileUpload (Some (example_document (u "design.txt"))) (Returns tt)
        (Returns (VDict ∅)))).1
  = sessions.
Proof.
  cbv zeta. apply (@turned_down_leaves_store caseless). vm_compute; reflexivity.
Defined.

(** "model.stl" is uploaded and removed again. *)
Lemma upload_then_remove_last_file_witness :
  let sessions := @run caseless ∅ order_until_files in
  let sessions1 :=
    (@handle_file_upload caseless sessions 1
       (Some (example_document (u "model.stl"))) (Returns tt) (Returns (VDict ∅))).1 in
  (remove_last_file sessions1 1).1 = sessions.
Proof.
  cbv zeta.
  set (m := @run caseless ∅ order_until_files).
  let o := eval vm_compute in (m !! 1%Z) in
  match o with
  | Some ?x =>
      exact (proj1 (proj2 (@upload_then_remove_last_file caseless m 1 x
                             (example_document (u "model.stl")) (VDict ∅)
                             ltac:(vm_compute; reflexivity)
                             ltac:(vm_compute; reflexivity)
                             ltac:(vm_compute; reflexivity))))
  end.
Defined.

(** Back at DELIVERY, the user of the worked example chooses pickup. *)
Lemma delivery_choice_in_payload_witness :
  let sessions :=
    @run caseless ∅ (order_until_confirmation ++ [(1%Z, BackToDelivery)]) in
  ∃ s', (handle_delivery_pickup sessions 1).1 !! 1%Z = Some s'
        ∧ step s' = CONFIRMATION
        ∧ to_order_data s' !! u "delivery_needed" = Some (VStr (u "false"))
        ∧ to_order_data s' !! u "delivery_details" = None.
Proof.
  cbv zeta.
  set (m := @run caseless ∅ (order_until_confirmation ++ [(1%Z, BackToDelivery)])).
  let o := eval vm_compute in (m !! 1%Z) in
  match o with
  | Some ?x =>
      exact (proj1 (delivery_choice_in_payload m 1 x
                      ltac:(vm_compute; reflexivity)
                      ltac:(vm_compute; reflexivity)))
  end.
Defined.


(** The same updates through the bot as it is wired: nothing but the
    service is collected. *)
Lemma imported_handlers_never_submit_witness :
  let sessions := @run_updates caseless order_handlers_py ∅ 1 example_order in
  ∃ s, sessions !! 1%Z = Some s
       ∧ (step s = SERVICE_SELECTION ∨ step s = CONTACT_INFO)
       ∧ customer_name s = None ∧ customer_email s = None
       ∧ customer_phone s = None ∧ files s = [] ∧ specifications s = ∅
       ∧ delivery_needed s = None ∧ delivery_details s = None.
Proof.
  cbv zeta.
  match goal with
  | |- ∃ s, ?m !! ?k = _ ∧ _ =>
      let o := eval vm_compute in (m !! k) in
      match o with
      | Some ?x =>
          exists x; split; [vm_compute; reflexivity|];
          exact (proj1 (@imported_handlers_never_submit caseless m
                          (bot_reachable_run_updates 1 example_order ∅
                             bot_reachable_empty))
                   k x ltac:(vm_compute; reflexivity))
      end
  end.
Defined.
